(** * Qodo Plus: configuration resolution and process supervision

    A shallow embedding of [src/extension.ts]: the placeholder resolver, the
    API-key fallback chain, the first-run bootstrap of the Python environment
    and the supervision of the spawned cover-agent process, together with the
    facts the specification states about them. *)

From Stdlib Require Import Ascii ZArith Lia.
From stdpp Require Import base option list gmap strings pretty.

(** ** JavaScript string primitives used by the extension *)

Module JS.

(** Truthiness of a [string | undefined] value: [undefined] and the empty
    string are falsy, every other string is truthy. *)
Definition truthy (v : option string) : bool :=
  match v with
  | Some (String _ _) => true
  | _ => false
  end.

(** [v || d] for a [string | undefined] left operand. *)
Definition or_default (v : option string) (d : string) : string :=
  match v with
  | Some (String c s) => String c s
  | _ => d
  end.

(** [v ?? d]: only [undefined] is replaced. *)
Definition nullish {A} (v : option A) (d : A) : A :=
  match v with
  | Some x => x
  | None => d
  end.

Fixpoint drop (n : nat) (s : string) : string :=
  match n, s with
  | S k, String _ s' => drop k s'
  | _, _ => s
  end.

Definition is_dollar (c : ascii) : bool := Ascii.eqb c "$"%char.

(** [GetSubstitution] of ECMA-262 for a pattern without capture groups:
    [$$] is a dollar sign, [$&] the matched text, [$`] the text before the
    match, [$'] the text after it; [$n] and [$<] stay literal since there
    is no capture to refer to. *)
Fixpoint getSubstitution (matched before after tpl : string) : string :=
  match tpl with
  | EmptyString => EmptyString
  | String c r =>
      if is_dollar c then
        match r with
        | String d r' =>
            if Ascii.eqb d "$"%char then
              String "$"%char (getSubstitution matched before after r')
            else if Ascii.eqb d "&"%char then
              matched +:+ getSubstitution matched before after r'
            else if Ascii.eqb d "`"%char then
              before +:+ getSubstitution matched before after r'
            else if Ascii.eqb d "'"%char then
              after +:+ getSubstitution matched before after r'
            else String c (getSubstitution matched before after r)
        | EmptyString => String c EmptyString
        end
      else String c (getSubstitution matched before after r)
  end.

(** The scan of [String.prototype.replace] with a global regular expression
    whose source is the literal, non-empty text [pat]: matches are found
    left to right on the subject, the search resumes after each match, and
    every match is replaced by its substitution. [before] is the part of
    the subject already passed, [skip] the number of characters of the
    current match still to be consumed. *)
Fixpoint replace_scan (pat repl before : string) (skip : nat) (s : string)
  : string :=
  match s with
  | EmptyString => EmptyString
  | String c s' =>
      match skip with
      | S k => replace_scan pat repl (before +:+ String c EmptyString) k s'
      | O =>
          if String.prefix pat (String c s') then
            getSubstitution pat before (drop (String.length pat) (String c s')) repl
              +:+ replace_scan pat repl (before +:+ String c EmptyString)
                    (String.length pat - 1) s'
          else
            String c (replace_scan pat repl (before +:+ String c EmptyString) 0 s')
      end
  end.

Definition replace_global (pat repl s : string) : string :=
  replace_scan pat repl EmptyString 0 s.

End JS.

(** ** Placeholder tokens *)

Inductive Placeholder :=
| RelativeFilePath
| FileName
| SourceDir
| TestFilePath.

Global Instance Placeholder_eq_dec : EqDecision Placeholder.
Proof. solve_decision. Defined.

Definition token_name (p : Placeholder) : string :=
  match p with
  | RelativeFilePath => "relativeFilePath"
  | FileName => "fileName"
  | SourceDir => "sourceDir"
  | TestFilePath => "testFilePath"
  end.

(** The source text of the regular expressions [/{relativeFilePath}/g],
    [/{fileName}/g], [/{sourceDir}/g] and [/{testFilePath}/g]. A brace that
    does not form a quantifier matches itself, so each of them matches its
    own text and nothing else. *)
Definition token (p : Placeholder) : string :=
  String "{"%char (token_name p +:+ "}").

(** [s.replace(/{p}/g, v)] *)
Definition replace (p : Placeholder) (v : string) (s : string) : string :=
  JS.replace_global (token p) v s.

(** The per-invocation path facts substituted into the templates. *)
Record PathContext := {
  sourceRelPath : string;
  fileName : string;
  sourceDir : string
}.

(** [finalSourcePath] and [finalTestPath]: three chained global replaces. *)
Definition resolvePath (tpl : string) (c : PathContext) : string :=
  replace SourceDir (sourceDir c)
    (replace FileName (fileName c)
       (replace RelativeFilePath (sourceRelPath c) tpl)).

(** [finalTestCommand]: two chained global replaces. *)
Definition resolveCommand (tpl finalTestPath : string) (c : PathContext) : string :=
  replace SourceDir (sourceDir c)
    (replace TestFilePath finalTestPath tpl).


(** ** Node's [path] module

    The extension reaches the file system through [path.join],
    [path.dirname], [path.basename], [path.relative] and [path.sep], whose
    meaning depends on the host platform. *)

Class PathModule := {
  sep : ascii;
  join : list string -> string;
  dirname : string -> string;
  basename : string -> string;
  relative : string -> string -> string
}.

(** [p.split(path.sep).join('/')]: splitting on a one-character separator and
    joining with a slash turns every separator into a slash. *)
Fixpoint toPosixPath `{PathModule} (p : string) : string :=
  match p with
  | EmptyString => EmptyString
  | String c p' =>
      String (if Ascii.eqb c sep then "/"%char else c) (toPosixPath p')
  end.

(** [path.posix], as implemented by Node. *)
Module Posix.

Definition is_slash (c : ascii) : bool := Ascii.eqb c "/"%char.

Fixpoint split (s : string) : list string :=
  match s with
  | EmptyString => [EmptyString]
  | String c s' =>
      if is_slash c then EmptyString :: split s'
      else match split s' with
           | seg :: rest => String c seg :: rest
           | [] => [String c EmptyString]
           end
  end.

Fixpoint unsplit (segs : list string) : string :=
  match segs with
  | [] => EmptyString
  | [seg] => seg
  | seg :: rest => seg +:+ String "/"%char (unsplit rest)
  end.

(** One round of [normalizeString]'s loop, on a whole segment; [stack] is
    the result so far, last segment first. *)
Definition push_segment (allowAboveRoot : bool) (stack : list string)
    (seg : string) : list string :=
  if String.eqb seg "" || String.eqb seg "." then stack
  else if String.eqb seg ".." then
    match stack with
    | top :: rest =>
        if String.eqb top ".." then
          (if allowAboveRoot then seg :: stack else stack)
        else rest
    | [] => if allowAboveRoot then [seg] else []
    end
  else seg :: stack.

Definition normalize_segments (allowAboveRoot : bool) (stack segs : list string)
  : list string :=
  foldl (push_segment allowAboveRoot) stack segs.

Definition normalizeString (path : string) (allowAboveRoot : bool) : string :=
  unsplit (rev (normalize_segments allowAboveRoot [] (split path))).

Definition isAbsolute (path : string) : bool :=
  match path with
  | String c _ => is_slash c
  | EmptyString => false
  end.

Fixpoint trailingSeparator (path : string) : bool :=
  match path with
  | EmptyString => false
  | String c EmptyString => is_slash c
  | String _ p' => trailingSeparator p'
  end.

Definition normalize (path : string) : string :=
  match path with
  | EmptyString => "."
  | _ =>
      match normalizeString path (negb (isAbsolute path)) with
      | EmptyString =>
          if isAbsolute path then "/"
          else if trailingSeparator path then "./" else "."
      | p =>
          (if isAbsolute path then "/" else "") +:+ p
            +:+ (if trailingSeparator path then "/" else "")
      end
  end.

Definition nonempty (s : string) : bool :=
  match s with
  | EmptyString => false
  | _ => true
  end.

Definition join (args : list string) : string :=
  match filter (fun a => nonempty a = true) args with
  | [] => "."
  | parts => normalize (unsplit parts)
  end.

Definition chars (s : string) : list ascii := String.list_ascii_of_string s.
Definition text (l : list ascii) : string := String.string_of_list_ascii l.

Fixpoint drop_while (f : ascii -> bool) (l : list ascii) : list ascii :=
  match l with
  | c :: l' => if f c then drop_while f l' else l
  | [] => []
  end.

Fixpoint take_while (f : ascii -> bool) (l : list ascii) : list ascii :=
  match l with
  | c :: l' => if f c then c :: take_while f l' else []
  | [] => []
  end.

Definition not_slash (c : ascii) : bool := negb (is_slash c).

(** The backward scan of [basename]: trailing slashes are skipped, then the
    characters up to the next slash are the result. *)
Definition basename (path : string) : string :=
  text (rev (take_while not_slash (drop_while is_slash (rev (chars path))))).

(** The backward scan of [dirname], which stops before index 0: trailing
    slashes and the last segment are skipped; the slash reached then is
    where the result ends. *)
Definition dirname (path : string) : string :=
  match path with
  | EmptyString => "."
  | String c0 tail =>
      match drop_while not_slash (drop_while is_slash (rev (chars tail))) with
      | [] => if is_slash c0 then "/" else "."
      | _ :: before =>
          match before with
          | [] => if is_slash c0 then "//" else String c0 EmptyString
          | _ => String c0 (text (rev before))
          end
      end
  end.

(** [resolve] of one path against the working directory [cwd] of the
    process, which is absolute. *)
Definition resolve (cwd path : string) : string :=
  let full :=
    if isAbsolute path then path
    else if nonempty path then cwd +:+ String "/"%char path
    else cwd in
  String "/"%char (normalizeString full false).

Fixpoint strip_common (a b : list string) : list string * list string :=
  match a, b with
  | x :: a', y :: b' => if String.eqb x y then strip_common a' b' else (a, b)
  | _, _ => (a, b)
  end.

Definition segments (abs : string) : list string :=
  filter (fun s => nonempty s = true) (split abs).

(** [relative]: both paths are resolved, their common leading segments are
    dropped, and the result climbs out of what is left of [from] before
    descending into what is left of [to]. *)
Definition relative (cwd from to : string) : string :=
  if String.eqb from to then ""
  else
    let f := resolve cwd from in
    let t := resolve cwd to in
    if String.eqb f t then ""
    else
      let '(up, down) := strip_common (segments f) (segments t) in
      unsplit (map (fun _ => "..") up ++ down).

Definition module (cwd : string) : PathModule :=
  Build_PathModule "/"%char join dirname basename (relative cwd).

End Posix.

(** ** Effects of the extension on its host *)

Inductive Level := Information | Warning | Error.

(** The notifications the extension shows, one constructor per call site. *)
Inductive Notice :=
| OpenFileFirst
| OpenFolderFirst
| ApiKeyMissing
| TestFolderFailed (message : string)
| SetupComplete
| SetupFailed
| RunCancelled
| RunCompleted
| RunExitError (code : option Z)
| RunLaunchError (message : string).

Definition notice_level (n : Notice) : Level :=
  match n with
  | SetupComplete | RunCompleted => Information
  | RunCancelled => Warning
  | _ => Error
  end.

(** [`${code}`] for the [number | null] exit code of the close event. *)
Definition code_text (code : option Z) : string :=
  match code with
  | Some z => pretty z
  | None => "null"
  end.

Definition notice_text (n : Notice) : string :=
  match n with
  | OpenFileFirst => "Open a Python code file first"
  | OpenFolderFirst => "You need to open the project folder"
  | ApiKeyMissing =>
      "Please configure the API Key in Settings or environment variables."
  | TestFolderFailed m => "Unable to create test folder: " +:+ m
  | SetupComplete =>
      "Qodo Plus: Environment setup complete. Starting test generation"
  | SetupFailed =>
      "Environment setup error: Please check if Python is installed on your machine"
  | RunCancelled => "Qodo Plus: The test generation process has been cancelled"
  | RunCompleted => "Qodo Plus: Successfully completed test generation"
  | RunExitError code =>
      "Qodo Plus: Error (Code: " +:+ code_text code +:+ "). Check output for details"
  | RunLaunchError m => "Launch error: " +:+ m
  end.

Inductive Effect :=
| Show (n : Notice)                               (* window.show...Message *)
| ChannelShow                                     (* outputChannel.show(true) *)
| ChannelClear                                    (* outputChannel.clear() *)
| ChannelAppend (text : string)                   (* outputChannel.append *)
| ChannelAppendLine (text : string)               (* outputChannel.appendLine *)
| ProgressStart (title : string) (cancellable : bool) (* window.withProgress *)
| ProgressReport (message : string).              (* progress.report *)

(** What [execAsync] settles with: the two captured streams, or the message
    of the error it rejects with. *)
Inductive ExecResult :=
| ExecOk (stdout stderr : string)
| ExecFailed (message : string).

(** A command handler as the sequence of its interactions with the host.
    [AwaitExec] is the only point where it yields to the event loop. *)
Inductive Async (R : Type) : Type :=
| Ret (r : R)
| Do (e : Effect) (k : Async R)
| ExistsSync (path : string) (k : bool -> Async R)
| MkdirSync (path : string) (k : option string -> Async R)
| AwaitExec (command cwd : string) (k : ExecResult -> Async R).

Arguments Ret {R} r.
Arguments Do {R} e k.
Arguments ExistsSync {R} path k.
Arguments MkdirSync {R} path k.
Arguments AwaitExec {R} command cwd k.

Fixpoint bind {A B} (m : Async A) (f : A -> Async B) : Async B :=
  match m with
  | Ret r => f r
  | Do e k => Do e (bind k f)
  | ExistsSync p k => ExistsSync p (fun b => bind (k b) f)
  | MkdirSync p k => MkdirSync p (fun r => bind (k r) f)
  | AwaitExec c d k => AwaitExec c d (fun r => bind (k r) f)
  end.

Declare Scope async_scope.
Delimit Scope async_scope with async.
Notation "x <- m ;; k" := (bind m (fun x => k))
  (at level 100, m at next level, right associativity) : async_scope.
Notation "e ;;; k" := (Do e k)
  (at level 100, right associativity) : async_scope.

(** ** First-run bootstrap of the Python environment *)

Section Bootstrap.
Context `{PathModule}.

Definition qodoCoverDir (extensionPath : string) : string :=
  join [extensionPath; "python_service"; "qodo-cover"].

Definition coverAgentPath (isWindows : bool) (extensionPath : string) : string :=
  let venvRoot := join [qodoCoverDir extensionPath; "venv"] in
  join [venvRoot;
        if isWindows then "Scripts" else "bin";
        if isWindows then "cover-agent.exe" else "cover-agent"].

Definition venvCommand (isWindows : bool) : string :=
  (if isWindows then "py" else "python3") +:+ " -3.11 -m venv venv".

Definition pipCommand (isWindows : bool) : string :=
  (if isWindows then join ["venv"; "Scripts"; "pip"]
   else join ["venv"; "bin"; "pip"]) +:+ " install -e .".

(** The [catch] block. *)
Definition setupFailed (message : string) : Async bool :=
  (Show SetupFailed ;;;
   ChannelAppendLine ("[ERROR] " +:+ message) ;;;
   Ret false)%async.

(** After [pip install]: the end of the [try] block. *)
Definition afterInstall (installed : ExecResult) : Async bool :=
  match installed with
  | ExecFailed m => setupFailed m
  | ExecOk stdout stderr =>
      (ChannelAppendLine stdout ;;;
       (if JS.truthy (Some stderr)
        then Do (ChannelAppendLine ("[WARN] " +:+ stderr))
        else id)
         (ChannelAppendLine "[INFO] Python environment setup complete" ;;;
          Show SetupComplete ;;;
          Ret true))%async
  end.

(** After the creation of the virtual environment: install the
    dependencies. *)
Definition afterCreate (isWindows : bool) (extensionPath : string)
    (created : ExecResult) : Async bool :=
  match created with
  | ExecFailed m => setupFailed m
  | ExecOk _ _ =>
      (ProgressReport "Downloading the library (this may take a few minutes)" ;;;
       ChannelAppendLine "[INFO] Running pip install -e ." ;;;
       AwaitExec (pipCommand isWindows) (qodoCoverDir extensionPath) afterInstall)%async
  end.

Definition setupPythonEnvironment (isWindows : bool) (extensionPath : string)
  : Async bool :=
  ExistsSync (coverAgentPath isWindows extensionPath) (fun present =>
    if present then Ret true
    else
      (ProgressStart "Qodo Plus: Installing the Python environment" false ;;;
       ChannelShow ;;;
       ChannelAppendLine "[INFO] Creating a Virtual Environment (venv)" ;;;
       AwaitExec (venvCommand isWindows) (qodoCoverDir extensionPath)
         (afterCreate isWindows extensionPath))%async).

End Bootstrap.

(** ** Settings and the API credential *)

Definition possibleEnvKeys : list string :=
  ["OPENAI_API_KEY"; "FIREWORKS_AI_API_KEY"; "DEEPSEEK_API_KEY";
   "ANTHROPIC_API_KEY"; "GEMINI_API_KEY"; "GROQ_API_KEY"; "QODO_API_KEY"].

(** The [for ... of] loop over the candidate variables, with its [break];
    [apiKey] is the variable it assigns. *)
Fixpoint scanEnv (env : gmap string string) (keys : list string)
    (apiKey : option string) : option string :=
  match keys with
  | [] => apiKey
  | envKey :: rest =>
      if JS.truthy (env !! envKey) then env !! envKey
      else scanEnv env rest apiKey
  end.

(** The value of [apiKey] when the guard [if (!apiKey)] that aborts the
    command is reached. *)
Definition readApiKey (configured : option string) (env : gmap string string)
  : option string :=
  if negb (JS.truthy configured) then scanEnv env possibleEnvKeys configured
  else configured.

(** The credential the run proceeds with; [None] is the abort with the
    "Please configure the API Key" error. *)
Definition credential (configured : option string) (env : gmap string string)
  : option string :=
  let apiKey := readApiKey configured env in
  if negb (JS.truthy apiKey) then None else apiKey.

(** What the command reads from its host. *)
Record Host := {
  activeDocument : option string;
  workspaceFolders : option (string * list string);
  extensionPath : string;
  isWindows : bool;
  processEnv : gmap string string;
  settings : gmap string string;
  numberSettings : gmap string Z
}.

Record Invocation := {
  apiKey : string;
  model : string;
  baseUrl : string;
  finalSourcePath : string;
  finalTestPath : string;
  reportPath : string;
  finalTestCommand : string;
  coverageType : string;
  desiredCoverage : Z;
  maxIterations : Z;
  maxFixAttempts : Z
}.

Record SpawnRequest := {
  spawnCommand : string;
  spawnArgs : list string;
  spawnCwd : string;
  spawnEnv : gmap string string
}.

Section Command.
Context `{PathModule}.

Definition pathContext (workspaceRoot sourceAbsPath : string) : PathContext :=
  let rel := toPosixPath (relative workspaceRoot sourceAbsPath) in
  {| sourceRelPath := rel;
     fileName := basename sourceAbsPath;
     sourceDir := toPosixPath (dirname rel) |}.

(** Settings, defaults and placeholder resolution. *)
Definition resolveInvocation (h : Host) (key workspaceRoot sourceAbsPath : string)
  : Invocation :=
  let config := settings h in
  let c := pathContext workspaceRoot sourceAbsPath in
  let sourcePathTpl := JS.or_default (config !! "sourceFilePath") "{relativeFilePath}" in
  let testPathTpl := JS.or_default (config !! "testFilePath") "tests/test_{fileName}" in
  let testCmdTpl :=
    JS.or_default (config !! "testCommand")
      "pytest {testFilePath} --cov={sourceDir} --cov-branch --cov-report=xml --cov-report=html" in
  let testPath := resolvePath testPathTpl c in
  {| apiKey := key;
     model := JS.or_default (config !! "model") "deepseek/deepseek-chat";
     baseUrl := JS.or_default (config !! "baseUrl") "https://api.deepseek.com";
     finalSourcePath := resolvePath sourcePathTpl c;
     finalTestPath := testPath;
     reportPath := JS.or_default (config !! "codeCoverageReportPath") "coverage.xml";
     finalTestCommand := resolveCommand testCmdTpl testPath c;
     coverageType := JS.or_default (config !! "coverageType") "cobertura";
     desiredCoverage := JS.nullish (numberSettings h !! "desiredCoverage") 100%Z;
     maxIterations := JS.nullish (numberSettings h !! "maxIterations") 3%Z;
     maxFixAttempts := JS.nullish (numberSettings h !! "maxFixAttempts") 1%Z |}.

Definition testDirAbs (workspaceRoot : string) (inv : Invocation) : string :=
  join [workspaceRoot; dirname (finalTestPath inv)].

Definition args (inv : Invocation) : list string :=
  ["--model"; model inv;
   "--source-file-path"; finalSourcePath inv;
   "--test-file-path"; finalTestPath inv;
   "--code-coverage-report-path"; reportPath inv;
   "--test-command"; finalTestCommand inv;
   "--coverage-type"; coverageType inv;
   "--desired-coverage"; pretty (desiredCoverage inv);
   "--max-iterations"; pretty (maxIterations inv);
   "--max-fix-attempts"; pretty (maxFixAttempts inv)].

Fixpoint joinWith (glue : string) (l : list string) : string :=
  match l with
  | [] => ""
  | [x] => x
  | x :: rest => x +:+ glue +:+ joinWith glue rest
  end.

Definition spawnRequest (h : Host) (workspaceRoot : string) (inv : Invocation)
  : SpawnRequest :=
  {| spawnCommand := coverAgentPath (isWindows h) (extensionPath h);
     spawnArgs := args inv;
     spawnCwd := workspaceRoot;
     spawnEnv := <["OPENAI_BASE_URL" := baseUrl inv]>
                   (<["OPENAI_API_KEY" := apiKey inv]> (processEnv h)) |}.

Definition quoted (s : string) : string :=
  String "034"%char (s +:+ String "034"%char EmptyString).

(** From the start of the run to the [spawn] call. *)
Definition launch (h : Host) (workspaceRoot : string) (inv : Invocation)
  : Async (option SpawnRequest) :=
  let req := spawnRequest h workspaceRoot inv in
  (ChannelShow ;;;
   ChannelClear ;;;
   ChannelAppendLine "[INFO] Start running Qodo Cover" ;;;
   ChannelAppendLine
     ("[CMD] " +:+ quoted (spawnCommand req) +:+ " " +:+ joinWith " " (spawnArgs req)) ;;;
   ProgressStart "Qodo Plus: Generating tests with AI" true ;;;
   Ret (Some req))%async.

(** The handler of [qodo-plus.generateTest], up to the [spawn] call; [None]
    is an early [return]. *)
Definition generateTest (h : Host) : Async (option SpawnRequest) :=
  match activeDocument h with
  | None => (Show OpenFileFirst ;;; Ret None)%async
  | Some sourceAbsPath =>
      match workspaceFolders h with
      | None => (Show OpenFolderFirst ;;; Ret None)%async
      | Some (workspaceRoot, _) =>
          match credential (settings h !! "apiKey") (processEnv h) with
          | None => (Show ApiKeyMissing ;;; Ret None)%async
          | Some key =>
              let inv := resolveInvocation h key workspaceRoot sourceAbsPath in
              (isSetupSuccess <- setupPythonEnvironment (isWindows h) (extensionPath h) ;;
               if negb isSetupSuccess then Ret None
               else
                 ExistsSync (testDirAbs workspaceRoot inv) (fun present =>
                   if negb present then
                     MkdirSync (testDirAbs workspaceRoot inv) (fun err =>
                       match err with
                       | Some m => Show (TestFolderFailed m) ;;; Ret None
                       | None => launch h workspaceRoot inv
                       end)
                   else launch h workspaceRoot inv))%async
          end
      end
  end.

End Command.

(** ** Running a handler against the host *)

Record World := {
  files : gset string;               (* the paths that exist *)
  effects : list Effect;             (* what the user has been shown, oldest first *)
  commands : list (string * string)  (* commands started with [exec], and their cwd *)
}.

(** The part of the environment the extension does not control: what a
    command started with [exec] settles with and creates, and whether
    [mkdirSync] throws. *)
Record Machine := {
  exec : string -> string -> gset string -> ExecResult * gset string;
  mkdirError : string -> gset string -> option string
}.

Definition emit (e : Effect) (w : World) : World :=
  {| files := files w; effects := effects w ++ [e]; commands := commands w |}.

Definition mkdir (M : Machine) (path : string) (w : World) : option string * World :=
  match mkdirError M path (files w) with
  | Some m => (Some m, w)
  | None =>
      (None, {| files := {[path]} ∪ files w; effects := effects w;
                commands := commands w |})
  end.

Definition started (command cwd : string) (w : World) : World :=
  {| files := files w; effects := effects w;
     commands := commands w ++ [(command, cwd)] |}.

Definition settled (created : gset string) (w : World) : World :=
  {| files := created ∪ files w; effects := effects w; commands := commands w |}.

(** One handler run to completion, each command settling before the next
    step. *)
Fixpoint run {R} (M : Machine) (m : Async R) (w : World) : R * World :=
  match m with
  | Ret r => (r, w)
  | Do e k => run M k (emit e w)
  | ExistsSync p k => run M (k (bool_decide (p ∈ files w))) w
  | MkdirSync p k => let '(err, w') := mkdir M p w in run M (k err) w'
  | AwaitExec c d k =>
      let w1 := started c d w in
      let '(r, created) := exec M c d (files w1) in
      run M (k r) (settled created w1)
  end.

(** *** Overlapping invocations on the event loop

    A handler runs until it awaits a command; the loop then serves whichever
    trigger or settled command comes next. *)

Inductive Task (R : Type) :=
| Awaiting (command cwd : string) (k : ExecResult -> Async R)
| Finished (result : R).

Arguments Awaiting {R} command cwd k.
Arguments Finished {R} result.

(** Run a handler up to its next [await]. *)
Fixpoint advance {R} (M : Machine) (m : Async R) (w : World) : Task R * World :=
  match m with
  | Ret r => (Finished r, w)
  | Do e k => advance M k (emit e w)
  | ExistsSync p k => advance M (k (bool_decide (p ∈ files w))) w
  | MkdirSync p k => let '(err, w') := mkdir M p w in advance M (k err) w'
  | AwaitExec c d k => (Awaiting c d k, started c d w)
  end.

Inductive LoopEvent :=
| Trigger
| Settle (task : nat) (result : ExecResult) (created : gset string).

Record Loop (R : Type) := {
  world : World;
  tasks : list (Task R)
}.

Arguments world {R} l.
Arguments tasks {R} l.

Definition loop_step {R} (M : Machine) (handler : Async R) (l : Loop R)
    (e : LoopEvent) : Loop R :=
  match e with
  | Trigger =>
      let '(t, w) := advance M handler (world l) in
      {| world := w; tasks := tasks l ++ [t] |}
  | Settle i r created =>
      match tasks l !! i with
      | Some (Awaiting _ _ k) =>
          let '(t, w) := advance M (k r) (settled created (world l)) in
          {| world := w; tasks := <[i := t]> (tasks l) |}
      | _ => l
      end
  end.

Definition loop_run {R} (M : Machine) (handler : Async R) (l : Loop R)
    (es : list LoopEvent) : Loop R :=
  foldl (loop_step M handler) l es.

Definition is_awaiting {R} (t : Task R) : bool :=
  match t with
  | Awaiting _ _ _ => true
  | Finished _ => false
  end.

(** The commands that have been started and have not settled yet. *)
Definition in_flight {R} (l : Loop R) : list (string * string) :=
  omap (fun t => match t with
                 | Awaiting c d _ => Some (c, d)
                 | Finished _ => None
                 end) (tasks l).

(** ** Supervision of the spawned process *)

Inductive Event :=
| CancellationRequested
| StdoutData (data : string)
| StderrData (data : string)
| Close (code : option Z)
| ProcessError (message : string).

Record Supervisor := {
  isCancellationRequested : bool;   (* token.isCancellationRequested *)
  kills : nat;                      (* calls of childProcess.kill() *)
  shown : list Effect;              (* messages and channel output, oldest first *)
  resolves : nat                    (* calls of the promise's resolve() *)
}.

Definition spawned : Supervisor :=
  {| isCancellationRequested := false; kills := 0; shown := []; resolves := 0 |}.

Definition say (es : list Effect) (s : Supervisor) : Supervisor :=
  {| isCancellationRequested := isCancellationRequested s;
     kills := kills s; shown := shown s ++ es; resolves := resolves s |}.

Definition resolve (s : Supervisor) : Supervisor :=
  {| isCancellationRequested := isCancellationRequested s;
     kills := kills s; shown := shown s; resolves := S (resolves s) |}.

Definition kill (s : Supervisor) : Supervisor :=
  {| isCancellationRequested := isCancellationRequested s;
     kills := S (kills s); shown := shown s; resolves := resolves s |}.

Definition requestCancellation (s : Supervisor) : Supervisor :=
  {| isCancellationRequested := true;
     kills := kills s; shown := shown s; resolves := resolves s |}.

(** The listeners registered on the token, the two streams and the child
    process. The token is marked as cancelled before its listener runs. *)
Definition handle (s : Supervisor) (e : Event) : Supervisor :=
  match e with
  | CancellationRequested =>
      resolve
        (say [Show RunCancelled;
              ChannelAppendLine (String "010"%char "[WARN] Process cancelled by user")]
           (kill (requestCancellation s)))
  | StdoutData data => say [ChannelAppend data] s
  | StderrData data => say [ChannelAppend data] s
  | Close code =>
      if isCancellationRequested s then s
      else
        resolve
          (if bool_decide (code = Some 0%Z) then
             say [Show RunCompleted;
                  ChannelAppendLine (String "010"%char "[DONE] Complete.")] s
           else
             say [Show (RunExitError code);
                  ChannelAppendLine
                    (String "010"%char "[ERROR] Exit code: " +:+ code_text code)] s)
  | ProcessError message =>
      resolve
        (say [Show (RunLaunchError message);
              ChannelAppendLine ("[FATAL] " +:+ message)] s)
  end.

Definition supervise (es : list Event) : Supervisor :=
  foldl handle spawned es.

(** The terminal outcome of a run, as the supervisor contract names them. *)
Inductive Outcome :=
| Success
| Failure
| Cancelled.

Definition outcome_of (e : Effect) : option Outcome :=
  match e with
  | Show RunCompleted => Some Success
  | Show (RunExitError _) => Some Failure
  | Show (RunLaunchError _) => Some Failure
  | Show RunCancelled => Some Cancelled
  | _ => None
  end.

(** The outcomes reported to the user in the course of a run, in order. *)
Definition outcomes (s : Supervisor) : list Outcome :=
  omap outcome_of (shown s).

(** ** The executable, as the command locates it before [spawn] *)

Section SpawnPath.
Context `{PathModule}.

(** [venvRoot] and [coverAgentPath] in the command handler, which joins the
    four components of the virtual environment in one call. *)
Definition spawnedAgentPath (isWindows : bool) (extensionPath : string) : string :=
  let venvRoot := join [extensionPath; "python_service"; "qodo-cover"; "venv"] in
  join [venvRoot;
        if isWindows then "Scripts" else "bin";
        if isWindows then "cover-agent.exe" else "cover-agent"].

End SpawnPath.

(** ** Vocabulary of the specification *)

(** What the specification says the credential lookup yields. *)
Inductive CredentialSpec (configured : option string) (env : gmap string string)
  : option string -> Prop :=
| FromSetting k :
    configured = Some k -> k <> "" ->
    CredentialSpec configured env (Some k)
| FromEnvironment before key after v :
    JS.truthy configured = false ->
    possibleEnvKeys = before ++ key :: after ->
    Forall (fun k => env !! k = None \/ env !! k = Some "") before ->
    env !! key = Some v -> v <> "" ->
    CredentialSpec configured env (Some v)
| ConfigError :
    JS.truthy configured = false ->
    Forall (fun k => env !! k = None \/ env !! k = Some "") possibleEnvKeys ->
    CredentialSpec configured env None.

(** The host with its string settings replaced. *)
Definition with_settings (h : Host) (st : gmap string string) : Host :=
  {| activeDocument := activeDocument h;
     workspaceFolders := workspaceFolders h;
     extensionPath := extensionPath h;
     isWindows := isWindows h;
     processEnv := processEnv h;
     settings := st;
     numberSettings := numberSettings h |}.

(** Output arriving on one of the child's two streams. *)
Definition is_output (e : Event) : bool :=
  match e with
  | StdoutData _ | StderrData _ => true
  | _ => false
  end.

(** Output, or the child exiting with whatever code. *)
Definition is_output_or_close (e : Event) : bool :=
  match e with
  | StdoutData _ | StderrData _ | Close _ => true
  | _ => false
  end.

(** *** Templates *)

Fixpoint has_char (a : ascii) (s : string) : bool :=
  match s with
  | EmptyString => false
  | String c s' => Ascii.eqb c a || has_char a s'
  end.

Definition no_brace (s : string) : bool := negb (has_char "{"%char s).
Definition no_dollar (s : string) : bool := negb (has_char "$"%char s).

(** [occurs needle hay]: [needle] is a substring of [hay]. *)
Fixpoint occurs (needle hay : string) : bool :=
  String.prefix needle hay
  || match hay with
     | String _ hay' => occurs needle hay'
     | EmptyString => false
     end.

(** A template read as the specification reads it: literal text in which the
    recognised tokens mark the places to fill. *)
Inductive Item :=
| Text (s : string)
| Hole (p : Placeholder).

Definition render_item (i : Item) : string :=
  match i with
  | Text s => s
  | Hole p => token p
  end.

Fixpoint render (t : list Item) : string :=
  match t with
  | [] => EmptyString
  | i :: t' => render_item i +:+ render t'
  end.

Definition placeholders : list Placeholder :=
  [RelativeFilePath; FileName; SourceDir; TestFilePath].

(** Reading a template from left to right: a token where one begins, a
    character of text otherwise. [skip] counts the characters of the token
    just read that are still to be passed. *)
Fixpoint parse_from (skip : nat) (s : string) : list Item :=
  match s with
  | EmptyString => []
  | String c s' =>
      match skip with
      | S k => parse_from k s'
      | O =>
          match find (fun p => String.prefix (token p) (String c s')) placeholders with
          | Some p => Hole p :: parse_from (String.length (token p) - 1) s'
          | None => Text (String c EmptyString) :: parse_from 0 s'
          end
      end
  end.

Definition parse (tpl : string) : list Item := parse_from 0 tpl.

(** Every opening brace of the template begins a token. *)
Definition plain_text (t : list Item) : bool :=
  forallb (fun i => match i with Text s => no_brace s | Hole _ => true end) t.

Definition well_braced (tpl : string) : bool := plain_text (parse tpl).

(** Substitution in one pass: each token is replaced by its value as it
    stands, and a token without a value is left verbatim. *)
Definition fill (values : Placeholder -> option string) (i : Item) : string :=
  match i with
  | Text s => s
  | Hole p => default (token p) (values p)
  end.

Fixpoint expand (values : Placeholder -> option string) (t : list Item) : string :=
  match t with
  | [] => EmptyString
  | i :: t' => fill values i +:+ expand values t'
  end.

(** The tokens of the path templates and their values. *)
Definition path_values (c : PathContext) (p : Placeholder) : option string :=
  match p with
  | RelativeFilePath => Some (sourceRelPath c)
  | FileName => Some (fileName c)
  | SourceDir => Some (sourceDir c)
  | TestFilePath => None
  end.

(** The tokens of the test-command template and their values. *)
Definition command_values (testPath : string) (c : PathContext) (p : Placeholder)
  : option string :=
  match p with
  | TestFilePath => Some testPath
  | SourceDir => Some (sourceDir c)
  | _ => None
  end.

(** No token of the template has a value that contains a token string. *)
Definition no_token_in_values (tpl : string) (c : PathContext) : bool :=
  forallb (fun p =>
    match path_values c p with
    | Some v =>
        negb (occurs (token p) tpl)
        || forallb (fun q => negb (occurs (token q) v)) placeholders
    | None => true
    end) placeholders.

(** One pass of substitution on a parsed template. *)
Definition subst (p : Placeholder) (v : string) (t : list Item) : list Item :=
  map (fun i => match i with
                | Hole q => if decide (p = q) then Text v else Hole q
                | Text s => Text s
                end) t.

(** *** Locations in the file system *)

(** The directories an absolute path leads through from the root down, once
    [.], [..] and repeated slashes are resolved. *)
Definition location (path : string) : list string :=
  rev (Posix.normalize_segments false [] (Posix.split path)).

(** [path] is [root] or lies below it. *)
Definition inside (root path : string) : Prop :=
  location root `prefix_of` location path.

Global Instance inside_dec root path : Decision (inside root path).
Proof. unfold inside. apply _. Defined.

(** A segment that [normalizeString] keeps as it is. *)
Definition tidy (seg : string) : Prop :=
  seg <> "" /\ seg <> "." /\ seg <> ".." /\ has_char "/"%char seg = false.

(** *** Triggers that do not overlap *)

(** No trigger of [es] arrives while a command of an earlier one is still in
    flight. *)
Fixpoint serial {R} (M : Machine) (handler : Async R) (l : Loop R)
    (es : list LoopEvent) : bool :=
  match es with
  | [] => true
  | e :: es' =>
      match e with
      | Trigger => bool_decide (in_flight l = [])
      | Settle _ _ _ => true
      end && serial M handler (loop_step M handler l e) es'
  end.

Definition idle (files : gset string) : Loop bool :=
  {| world := {| files := files; effects := []; commands := [] |}; tasks := [] |}.

(** The states an invocation of the bootstrap can be in: waiting for the
    virtual environment, waiting for the installation, or done. *)
Inductive bootstrap_task `{PathModule} (windows : bool) (root : string)
  : Task bool -> Prop :=
| task_creating :
    bootstrap_task windows root
      (Awaiting (venvCommand windows) (qodoCoverDir root) (afterCreate windows root))
| task_installing :
    bootstrap_task windows root
      (Awaiting (pipCommand windows) (qodoCoverDir root) afterInstall)
| task_finished b : bootstrap_task windows root (Finished b).

(** *** What a run leaves behind *)

(** The data of the output events of a run, in the order of arrival. *)
Definition output_data (es : list Event) : list string :=
  omap (fun e => match e with
                 | StdoutData d | StderrData d => Some d
                 | _ => None
                 end) es.

(** What has been appended to the channel with [append]. *)
Definition appended (effs : list Effect) : list string :=
  omap (fun e => match e with
                 | ChannelAppend d => Some d
                 | _ => None
                 end) effs.

Definition is_cancellation (e : Event) : bool :=
  match e with
  | CancellationRequested => true
  | _ => false
  end.

(** The error notifications among a list of effects. *)
Definition errors (effs : list Effect) : list Notice :=
  omap (fun e => match e with
                 | Show n => match notice_level n with
                             | Error => Some n
                             | _ => None
                             end
                 | _ => None
                 end) effs.

(** *** Holes of a parsed template *)

(** No hole of [t] is for the token [p]. *)
Definition without_hole (p : Placeholder) (t : list Item) : bool :=
  forallb (fun i => match i with
                    | Hole q => negb (bool_decide (p = q))
                    | Text _ => true
                    end) t.

(** A value that can be inserted anywhere without being looked at again. *)
Definition clean (v : string) : bool := no_brace v && no_dollar v.

(** * Properties *)

#[local] Arguments String.append !_ _ / : simpl nomatch.

(** ** Strings and the global replace *)

Section Strings.
Implicit Types (s t pat v before rest : string) (a c : ascii).

Lemma app_nil_r_string s : s +:+ "" = s.
Proof. induction s as [|c s IH]; simpl; congruence. Qed.

Lemma app_assoc_string s t rest : (s +:+ t) +:+ rest = s +:+ (t +:+ rest).
Proof. induction s as [|c s IH]; simpl; congruence. Qed.

Lemma prefix_app pat rest : String.prefix pat (pat +:+ rest) = true.
Proof.
  induction pat as [|a pat IH]; simpl; [by destruct rest|].
  destruct (ascii_dec a a); congruence.
Qed.

(** A value without a dollar sign is substituted as it stands. *)
Lemma getSubstitution_literal matched before after v :
  no_dollar v = true -> JS.getSubstitution matched before after v = v.
Proof.
  unfold no_dollar. induction v as [|c v IH]; simpl; [done|].
  unfold JS.is_dollar. destruct (Ascii.eqb c "$") eqn:E; simpl; [discriminate|].
  intros Hv. by rewrite IH.
Qed.

(** The scan passes over text in which the first character of the pattern
    does not occur. *)
Lemma scan_passes a pat v s before rest :
  has_char a s = false ->
  JS.replace_scan (String a pat) v before 0 (s +:+ rest) =
  s +:+ JS.replace_scan (String a pat) v (before +:+ s) 0 rest.
Proof.
  revert before. induction s as [|c s IH]; intros before; simpl.
  - intros _. by rewrite app_nil_r_string.
  - intros Hs. apply orb_false_elim in Hs as [Hc Hs].
    apply Ascii.eqb_neq in Hc.
    destruct (ascii_dec a c) as [->|_]; [done|].
    rewrite IH by done. by rewrite app_assoc_string.
Qed.

(** The characters of a match are consumed without being looked at. *)
Lemma scan_skips pat v s before rest :
  JS.replace_scan pat v before (String.length s) (s +:+ rest) =
  JS.replace_scan pat v (before +:+ s) 0 rest.
Proof.
  revert before. induction s as [|c s IH]; intros before; simpl.
  - rewrite app_nil_r_string. by destruct rest.
  - rewrite IH. by rewrite app_assoc_string.
Qed.

(** At an occurrence of the pattern the value is inserted and the scan
    resumes behind the occurrence. *)
Lemma scan_replaces a pat v before rest :
  no_dollar v = true ->
  JS.replace_scan (String a pat) v before 0 (String a pat +:+ rest) =
  v +:+ JS.replace_scan (String a pat) v (before +:+ String a pat) 0 rest.
Proof.
  intros Hv.
  change (String a pat +:+ rest) with (String a (pat +:+ rest)).
  cbn [JS.replace_scan].
  change (String a (pat +:+ rest)) with (String a pat +:+ rest).
  rewrite prefix_app, getSubstitution_literal by done.
  replace (String.length (String a pat) - 1) with (String.length pat)
    by (cbn [String.length]; lia).
  rewrite scan_skips.
  by rewrite app_assoc_string.
Qed.

(** Without an occurrence of the pattern nothing changes. *)
Lemma scan_without_match pat v before s :
  occurs pat s = false -> JS.replace_scan pat v before 0 s = s.
Proof.
  revert before. induction s as [|c s IH]; intros before; [done|].
  cbn [occurs JS.replace_scan]. intros Ho.
  apply orb_false_elim in Ho as [-> Ho]. by rewrite IH.
Qed.

Lemma prefix_split pat s :
  String.prefix pat s = true -> exists rest, s = pat +:+ rest.
Proof.
  revert s. induction pat as [|a pat IH]; intros s; [by exists s|].
  destruct s as [|c s]; simpl; [discriminate|].
  destruct (ascii_dec a c) as [->|]; [|discriminate].
  intros [rest ->]%IH. by exists rest.
Qed.

Lemma drop_app s rest : JS.drop (String.length s) (s +:+ rest) = rest.
Proof. induction s as [|c s IH]; simpl; [by destruct rest|done]. Qed.

Lemma length_app_string s t :
  String.length (s +:+ t) = String.length s + String.length t.
Proof. induction s as [|c s IH]; simpl; [done|]. by rewrite IH. Qed.

End Strings.

(** ** Placeholder resolution *)

Section Resolution.
Implicit Types (p q : Placeholder) (t : list Item) (c : PathContext).

Lemma token_shape p : token p = String "{"%char (token_name p +:+ "}").
Proof. done. Qed.

Lemma token_tail_no_brace p : has_char "{"%char (token_name p +:+ "}") = false.
Proof. by destruct p. Qed.

Lemma other_token_no_match p q rest :
  p <> q -> String.prefix (token p) (token q +:+ rest) = false.
Proof. destruct p, q; intros Hne; try done; by vm_compute. Qed.

Lemma no_brace_has_char s : no_brace s = true -> has_char "{"%char s = false.
Proof. unfold no_brace. by destruct (has_char _ s). Qed.

(** One global replace, seen on the parsed template: the holes of its token
    are filled, everything else stays. *)
Lemma replace_scan_render p v t before :
  no_dollar v = true -> plain_text t = true ->
  JS.replace_scan (token p) v before 0 (render t) = render (subst p v t).
Proof.
  intros Hv. revert before. induction t as [|[s|q] t IH]; intros before Ht; [done|..].
  - simpl in Ht. apply andb_prop in Ht as [Hs Ht].
    cbn [render render_item subst map]. rewrite token_shape.
    rewrite scan_passes by by apply no_brace_has_char.
    by rewrite <- token_shape, IH.
  - simpl in Ht. cbn [render render_item subst map].
    destruct (decide (p = q)) as [<-|Hne].
    + cbn [render_item]. rewrite (token_shape p).
      rewrite scan_replaces by done. by rewrite <- (token_shape p), IH.
    + cbn [render_item].
      rewrite (token_shape q) at 1.
      change (String "{" (token_name q +:+ "}") +:+ render t)
        with (String "{"%char ((token_name q +:+ "}") +:+ render t)).
      cbn [JS.replace_scan].
      change (String "{" ((token_name q +:+ "}") +:+ render t))
        with (token q +:+ render t).
      rewrite other_token_no_match by done.
      rewrite (token_shape p), scan_passes by apply token_tail_no_brace.
      rewrite <- (token_shape p), IH by done.
      by rewrite (token_shape q).
Qed.

Lemma replace_render p v t :
  no_dollar v = true -> plain_text t = true ->
  replace p v (render t) = render (subst p v t).
Proof. apply replace_scan_render. Qed.

Lemma subst_plain p v t :
  no_brace v = true -> plain_text t = true -> plain_text (subst p v t) = true.
Proof.
  intros Hv. induction t as [|[s|q] t IH]; simpl; [done|..].
  - intros [-> Ht]%andb_prop. by rewrite IH.
  - intros Ht. destruct (decide (p = q)); simpl; rewrite ?Hv; auto.
Qed.

Lemma token_tail_length p :
  String.length (token p) - 1 = String.length (token_name p +:+ "}").
Proof. by destruct p. Qed.

(** Parsing loses nothing: the template is its parse, rendered. *)
Lemma render_parse_from skip s :
  skip <= String.length s -> render (parse_from skip s) = JS.drop skip s.
Proof.
  revert skip. induction s as [|c s IH]; intros skip Hskip.
  - by destruct skip.
  - destruct skip as [|k]; cbn [parse_from JS.drop].
    + destruct (find _ placeholders) as [p|] eqn:Hfind.
      * apply find_some in Hfind as [_ [rest Hrest]%prefix_split].
        rewrite token_shape in Hrest. injection Hrest as -> ->.
        cbn [render render_item].
        rewrite token_tail_length, IH, drop_app
          by (rewrite (length_app_string _ rest); lia).
        by rewrite token_shape.
      * cbn [render render_item]. rewrite IH by lia. by destruct s.
    + apply IH. cbn [String.length] in Hskip. lia.
Qed.

Lemma render_parse tpl : render (parse tpl) = tpl.
Proof. unfold parse. rewrite render_parse_from by lia. by destruct tpl. Qed.

(** The parsed template after the three passes of [resolvePath]. *)
Lemma resolvePath_render t c :
  plain_text t = true ->
  no_dollar (sourceRelPath c) = true -> no_brace (sourceRelPath c) = true ->
  no_dollar (fileName c) = true -> no_brace (fileName c) = true ->
  no_dollar (sourceDir c) = true ->
  resolvePath (render t) c =
  render (subst SourceDir (sourceDir c)
            (subst FileName (fileName c)
               (subst RelativeFilePath (sourceRelPath c) t))).
Proof.
  intros Ht Hr1 Hr2 Hf1 Hf2 Hd1. unfold resolvePath.
  rewrite (replace_render RelativeFilePath) by done.
  rewrite (replace_render FileName) by auto using subst_plain.
  by rewrite (replace_render SourceDir) by auto using subst_plain.
Qed.

Lemma path_passes_expand t c :
  render (subst SourceDir (sourceDir c)
            (subst FileName (fileName c)
               (subst RelativeFilePath (sourceRelPath c) t)))
  = expand (path_values c) t.
Proof.
  induction t as [|[s|q] t IH]; [done|..]; cbn [subst map render expand].
  - by rewrite <- IH.
  - rewrite <- IH. by destruct q.
Qed.

Lemma command_passes_expand t testPath c :
  render (subst SourceDir (sourceDir c) (subst TestFilePath testPath t))
  = expand (command_values testPath c) t.
Proof.
  induction t as [|[s|q] t IH]; [done|..]; cbn [subst map render expand].
  - by rewrite <- IH.
  - rewrite <- IH. by destruct q.
Qed.

(** A second round of passes finds nothing left to fill. *)
Lemma path_passes_twice t c :
  let pass t :=
    subst SourceDir (sourceDir c)
      (subst FileName (fileName c)
         (subst RelativeFilePath (sourceRelPath c) t)) in
  pass (pass t) = pass t.
Proof.
  intros pass. subst pass. unfold subst. rewrite !map_map.
  apply map_ext. by intros [s|[]].
Qed.

End Resolution.

(** C3, as the code has it. The three replacements of a path template run one
    after the other, each over the output of the one before; when every
    opening brace of the template begins a token, the values of
    [{relativeFilePath}] and [{fileName}] contain neither an opening brace
    nor a dollar sign and the value of [{sourceDir}] contains no dollar sign,
    the result is that of a single pass: every occurrence of every token is
    replaced by its value as it stands, and nothing is expanded again. The
    same holds for the two replacements of the test command. *)
Theorem substitution_in_one_pass (tpl : string) (c : PathContext) (testPath : string) :
  well_braced tpl = true ->
  no_dollar (sourceRelPath c) = true -> no_brace (sourceRelPath c) = true ->
  no_dollar (fileName c) = true -> no_brace (fileName c) = true ->
  no_dollar (sourceDir c) = true ->
  resolvePath tpl c = expand (path_values c) (parse tpl)
  /\ (no_dollar testPath = true -> no_brace testPath = true ->
      resolveCommand tpl testPath c = expand (command_values testPath c) (parse tpl)).
Proof.
  intros Ht Hr1 Hr2 Hf1 Hf2 Hd1. unfold well_braced in Ht. split.
  - rewrite <- (render_parse tpl) at 1.
    rewrite resolvePath_render by done. apply path_passes_expand.
  - intros Hp1 Hp2. rewrite <- (render_parse tpl) at 1. unfold resolveCommand.
    rewrite (replace_render TestFilePath) by done.
    rewrite (replace_render SourceDir) by auto using subst_plain.
    apply command_passes_expand.
Qed.

Lemma substitution_in_one_pass_witness :
  let c := @pathContext (Posix.module "/") "/ws" "/ws/app/calc.py" in
  resolvePath "tests/{sourceDir}/test_{fileName}{fileName}" c
  = "tests/app/test_calc.pycalc.py".
Proof.
  intros c.
  refine (proj1 (substitution_in_one_pass
                   "tests/{sourceDir}/test_{fileName}{fileName}"
                   c "tests/test_calc.py" _ _ _ _ _ _)); reflexivity.
Defined.

(** C3 as the specification words it fails: a value that carries the text of
    a token replaced later is expanded again. For the file
    [/ws/{fileName}/x.py] the template [{relativeFilePath}] resolves to
    [x.py/x.py], not to [{fileName}/x.py]. *)
Lemma value_with_token_is_expanded_again :
  let c := @pathContext (Posix.module "/") "/ws" "/ws/{fileName}/x.py" in
  let tpl := "{relativeFilePath}" in
  parse tpl = [Hole RelativeFilePath]
  /\ sourceRelPath c = "{fileName}/x.py"
  /\ expand (path_values c) (parse tpl) = "{fileName}/x.py"
  /\ resolvePath tpl c = "x.py/x.py"
  /\ resolvePath tpl c <> expand (path_values c) (parse tpl).
Proof. intros c tpl. by vm_compute. Qed.

(** A dollar sign in a value is not inserted as it stands: [$&] stands for
    the token being replaced, [$$] for one dollar sign. *)
Lemma dollar_in_value_is_interpreted :
  let c := @pathContext (Posix.module "/") "/ws" "/ws/app/a$&b$$.py" in
  fileName c = "a$&b$$.py"
  /\ resolvePath "tests/test_{fileName}" c = "tests/test_a{fileName}b$.py".
Proof. intros c. by vm_compute. Qed.

(** A template without any of the three tokens is left as it is. *)
Lemma resolvePath_without_tokens (tpl : string) (c : PathContext) :
  occurs (token RelativeFilePath) tpl = false ->
  occurs (token FileName) tpl = false ->
  occurs (token SourceDir) tpl = false ->
  resolvePath tpl c = tpl.
Proof.
  intros Hr Hf Hd. unfold resolvePath, replace, JS.replace_global.
  by rewrite (scan_without_match _ _ _ tpl Hr), (scan_without_match _ _ _ tpl Hf),
    (scan_without_match _ _ _ tpl Hd).
Qed.

(** C8, as the code has it. When every opening brace of the template begins
    a token and the three values contain neither an opening brace nor a
    dollar sign, resolving the resolved template again changes nothing. *)
Theorem resolution_idempotent (tpl : string) (c : PathContext) :
  well_braced tpl = true ->
  no_dollar (sourceRelPath c) = true -> no_brace (sourceRelPath c) = true ->
  no_dollar (fileName c) = true -> no_brace (fileName c) = true ->
  no_dollar (sourceDir c) = true -> no_brace (sourceDir c) = true ->
  resolvePath (resolvePath tpl c) c = resolvePath tpl c.
Proof.
  intros Ht Hr1 Hr2 Hf1 Hf2 Hd1 Hd2. unfold well_braced in Ht.
  rewrite <- (render_parse tpl).
  rewrite (resolvePath_render (parse tpl)) by done.
  rewrite resolvePath_render by auto using subst_plain.
  by rewrite path_passes_twice.
Qed.

Lemma resolution_idempotent_witness :
  let c := @pathContext (Posix.module "/") "/ws" "/ws/app/calc.py" in
  resolvePath (resolvePath "{sourceDir}/tests/test_{fileName}" c) c
  = resolvePath "{sourceDir}/tests/test_{fileName}" c.
Proof.
  intros c.
  apply (resolution_idempotent "{sourceDir}/tests/test_{fileName}" c); reflexivity.
Defined.

(** C8 as the specification words it fails: no value below contains a token
    string, yet the first resolution assembles a token from the text around
    a hole, and the second one expands it. *)
Lemma assembled_token_breaks_idempotence :
  let c := @pathContext (Posix.module "/") "/ws" "/ws/ath/calc.py" in
  let tpl := "{relativeFileP{sourceDir}}" in
  no_token_in_values tpl c = true
  /\ resolvePath tpl c = "{relativeFilePath}"
  /\ resolvePath (resolvePath tpl c) c = "ath/calc.py"
  /\ resolvePath (resolvePath tpl c) c <> resolvePath tpl c.
Proof. intros c tpl. by vm_compute. Qed.

(** ** POSIX paths *)

(** The examples of Node's documentation for [path]. *)
Lemma posix_documented_examples :
  Posix.join ["/foo"; "bar"; "baz/asdf"; "quux"; ".."] = "/foo/bar/baz/asdf"
  /\ Posix.normalize "/foo/bar//baz/asdf/quux/.." = "/foo/bar/baz/asdf"
  /\ Posix.dirname "/foo/bar/baz/asdf/quux" = "/foo/bar/baz/asdf"
  /\ Posix.basename "/foo/bar/baz/asdf/quux.html" = "quux.html"
  /\ Posix.relative "/" "/data/orandea/test/aaa" "/data/orandea/impl/bbb"
     = "../../impl/bbb".
Proof. by vm_compute. Qed.

Section Paths.
Implicit Types (s t seg : string) (segs stack : list string).

Lemma split_not_nil s : Posix.split s <> [].
Proof.
  induction s as [|c s IH]; simpl; [done|].
  destruct (Posix.is_slash c); [done|]. by destruct (Posix.split s).
Qed.

Lemma split_app_slash s t :
  Posix.split (s +:+ String "/"%char t) = Posix.split s ++ Posix.split t.
Proof.
  induction s as [|c s IH]; simpl; [done|].
  destruct (Posix.is_slash c); [by rewrite IH|].
  rewrite IH. pose proof (split_not_nil s). by destruct (Posix.split s).
Qed.

Lemma split_no_slash s : has_char "/"%char s = false -> Posix.split s = [s].
Proof.
  induction s as [|c s IH]; simpl; [done|]. unfold Posix.is_slash.
  intros [-> Hs]%orb_false_elim. by rewrite IH.
Qed.

Lemma split_unsplit segs :
  segs <> [] -> Forall (fun seg => has_char "/"%char seg = false) segs ->
  Posix.split (Posix.unsplit segs) = segs.
Proof.
  intros Hne Hall. induction Hall as [|seg segs Hseg Hall IH]; [done|].
  destruct segs as [|seg' segs]; simpl.
  - by apply split_no_slash.
  - rewrite split_app_slash, split_no_slash by done.
    simpl. f_equal. by apply IH.
Qed.

Lemma split_segments_no_slash s :
  Forall (fun seg => has_char "/"%char seg = false) (Posix.split s).
Proof.
  induction s as [|c s IH]; simpl; [by repeat constructor|].
  destruct (Posix.is_slash c) eqn:Hc; [by constructor|].
  unfold Posix.is_slash in Hc.
  destruct (Posix.split s) as [|seg segs].
  - constructor; [|done]. simpl. by rewrite Hc.
  - inversion IH; subst. constructor; [|done]. simpl. by rewrite Hc.
Qed.

Lemma push_tidy seg stack : tidy seg -> Posix.push_segment false stack seg = seg :: stack.
Proof.
  intros (H1 & H2 & H3 & _). unfold Posix.push_segment.
  apply String.eqb_neq in H1, H2, H3. by rewrite H1, H2, H3.
Qed.

(** Below the root, what [normalizeString] keeps is tidy. *)
Lemma push_keeps_tidy seg stack :
  has_char "/"%char seg = false ->
  Forall tidy stack -> Forall tidy (Posix.push_segment false stack seg).
Proof.
  intros Hseg Hst. unfold Posix.push_segment.
  destruct (String.eqb_spec seg "") as [|H1]; [done|].
  destruct (String.eqb_spec seg ".") as [|H2]; [done|]. simpl.
  destruct (String.eqb_spec seg "..") as [|H3].
  - destruct stack as [|top rest]; [done|].
    inversion Hst; subst. by destruct (String.eqb top "..").
  - by constructor.
Qed.

Lemma normalize_cons b seg segs stack :
  Posix.normalize_segments b stack (seg :: segs) =
  Posix.normalize_segments b (Posix.push_segment b stack seg) segs.
Proof. done. Qed.

Lemma normalize_app b segs1 segs2 stack :
  Posix.normalize_segments b stack (segs1 ++ segs2) =
  Posix.normalize_segments b (Posix.normalize_segments b stack segs1) segs2.
Proof. apply foldl_app. Qed.

Lemma normalize_keeps_tidy segs stack :
  Forall (fun seg => has_char "/"%char seg = false) segs ->
  Forall tidy stack -> Forall tidy (Posix.normalize_segments false stack segs).
Proof.
  intros Hall. revert stack. induction Hall as [|seg segs Hseg _ IH]; intros stack Hst;
    [done|].
  rewrite normalize_cons. apply IH. by apply push_keeps_tidy.
Qed.

Lemma normalize_tidy segs stack :
  Forall tidy segs -> Posix.normalize_segments false stack segs = rev segs ++ stack.
Proof.
  intros Hall. revert stack. induction Hall as [|seg segs Hseg _ IH]; intros stack;
    [done|].
  rewrite normalize_cons, push_tidy, IH by done.
  simpl. by rewrite <- app_assoc.
Qed.

(** Without a [..] among the segments the result only grows. *)
Lemma normalize_grows b segs stack :
  ".." ∉ segs -> exists more, Posix.normalize_segments b stack segs = more ++ stack.
Proof.
  revert stack. induction segs as [|seg segs IH]; intros stack Hno.
  - by exists [].
  - apply not_elem_of_cons in Hno as [Hseg Hno]. rewrite normalize_cons.
    destruct (IH (Posix.push_segment b stack seg) Hno) as [more ->].
    unfold Posix.push_segment.
    destruct (String.eqb seg "" || String.eqb seg "."); [by exists more|].
    destruct (String.eqb_spec seg ".."); [done|].
    exists (more ++ [seg]). by rewrite <- app_assoc.
Qed.

Lemma unsplit_empty segs :
  Forall tidy segs -> Posix.unsplit segs = "" -> segs = [].
Proof.
  intros Hall. destruct Hall as [|seg segs (Hne & _) _]; [done|].
  destruct segs; simpl; [done|]. by destruct seg.
Qed.

Lemma tidy_no_slash segs :
  Forall tidy segs -> Forall (fun seg => has_char "/"%char seg = false) segs.
Proof. intros Hall. eapply Forall_impl; [exact Hall|]. by intros seg (_ & _ & _ & ?). Qed.

(** [normalize] does not move an absolute path. *)
Lemma location_normalize s :
  Posix.isAbsolute s = true -> location (Posix.normalize s) = location s.
Proof.
  intros Habs. unfold Posix.normalize. destruct s as [|c s]; [done|].
  rewrite Habs. cbn [negb]. unfold Posix.normalizeString.
  set (stack := Posix.normalize_segments false [] (Posix.split (String c s))).
  assert (Forall tidy (rev stack)) as Htidy.
  { apply Forall_rev, normalize_keeps_tidy; [apply split_segments_no_slash|done]. }
  change (location (String c s)) with (rev stack). clearbody stack.
  destruct (Posix.unsplit (rev stack)) as [|c' s'] eqn:Hu.
  - apply unsplit_empty in Hu; [|done]. by rewrite Hu.
  - assert (rev stack <> []) as Hne by (intros Hnil; rewrite Hnil in Hu; discriminate).
    rewrite <- Hu. unfold location. cbn [String.append].
    destruct (Posix.trailingSeparator (String c s)).
    + change (Posix.split (String "/" (Posix.unsplit (rev stack) +:+ "/")))
        with ("" :: Posix.split (Posix.unsplit (rev stack) +:+ String "/"%char "")).
      rewrite split_app_slash, split_unsplit by auto using tidy_no_slash.
      rewrite normalize_cons, normalize_app.
      rewrite (normalize_tidy (rev stack)) by done.
      rewrite rev_involutive. cbn. by rewrite app_nil_r.
    + rewrite app_nil_r_string.
      change (Posix.split (String "/" (Posix.unsplit (rev stack))))
        with ("" :: Posix.split (Posix.unsplit (rev stack))).
      rewrite split_unsplit by auto using tidy_no_slash.
      rewrite normalize_cons.
      rewrite (normalize_tidy (rev stack)) by done.
      rewrite rev_involutive. cbn. by rewrite app_nil_r.
Qed.

End Paths.

(** ** The test directory *)

Section EnsureDirectory.
Context `{PathModule}.

Lemma run_bind {A B} (M : Machine) (m : Async A) (f : A -> Async B) (w : World) :
  run M (bind m f) w = let '(a, w1) := run M m w in run M (f a) w1.
Proof.
  revert w. induction m as [r|e k IH|p k IH|p k IH|cmd cwd k IH]; intros w;
    cbn [bind run]; auto.
  - destruct (mkdir M p w). auto.
  - destruct (exec M cmd cwd _). auto.
Qed.

Lemma run_launch (M : Machine) h root inv w :
  exists w', run M (launch h root inv) w = (Some (spawnRequest h root inv), w')
             /\ files w' = files w.
Proof. eexists. split; reflexivity. Qed.

(** When the command reaches [spawn], the directory of the test file has
    been found or created. *)
Lemma ensured_directory_exists (M : Machine) h doc root rest w req w' :
  activeDocument h = Some doc -> workspaceFolders h = Some (root, rest) ->
  run M (generateTest h) w = (Some req, w') ->
  exists key,
    credential (settings h !! "apiKey") (processEnv h) = Some key
    /\ req = spawnRequest h root (resolveInvocation h key root doc)
    /\ testDirAbs root (resolveInvocation h key root doc) ∈ files w'.
Proof.
  intros Hdoc Hws. unfold generateTest. rewrite Hdoc, Hws.
  destruct (credential _ _) as [key|]; [|discriminate].
  set (inv := resolveInvocation h key root doc).
  rewrite run_bind.
  destruct (run M (setupPythonEnvironment _ _) w) as [ok w1].
  destruct ok; cbn [negb]; [|discriminate].
  cbn [run]. destruct (bool_decide_reflect (testDirAbs root inv ∈ files w1)) as [Hin|Hout];
    cbn [negb].
  - destruct (run_launch M h root inv w1) as (w2 & -> & Hfiles).
    intros [= Hreq Hw]. subst req w'. exists key. by rewrite Hfiles.
  - cbn [run]. unfold mkdir.
    destruct (mkdirError M _ _) as [m|]; [discriminate|].
    match goal with
    | |- run M (launch h root inv) ?w0 = _ -> _ =>
        destruct (run_launch M h root inv w0) as (w2 & -> & Hfiles)
    end.
    intros [= Hreq Hw]. subst req w'. exists key. rewrite Hfiles. simpl.
    repeat split. by apply elem_of_union_l, elem_of_singleton.
Qed.

End EnsureDirectory.

Section TestDirectory.
Variable cwd : string.

Lemma join_root_inside root d :
  Posix.isAbsolute root = true ->
  ".." ∉ Posix.split d ->
  inside root (Posix.join [root; d]).
Proof.
  intros Habs Hno. unfold inside.
  destruct root as [|r root]; [discriminate|].
  destruct d as [|c d].
  - change (Posix.join [String r root; ""]) with (Posix.normalize (String r root)).
    by rewrite location_normalize.
  - change (Posix.join [String r root; String c d])
      with (Posix.normalize (String r root +:+ String "/"%char (String c d))).
    rewrite location_normalize by done.
    unfold location. rewrite split_app_slash, normalize_app.
    destruct (normalize_grows false (Posix.split (String c d))
                (Posix.normalize_segments false [] (Posix.split (String r root))) Hno)
      as [more ->].
    rewrite rev_app_distr. by eexists.
Qed.

End TestDirectory.

(** C4, as the code has it. When the command reaches [spawn], the directory
    of the resolved test path, joined to the workspace root, has been found
    or created; for an absolute workspace root, and a test path whose
    directory part has no [..] segment, that directory is the workspace root
    or lies below it. This covers absolute test paths too, which [path.join]
    places below the root. *)
Theorem test_directory_inside_root (cwd : string) (M : Machine) (h : Host)
    (doc root : string) (rest : list string) (w w' : World) (req : SpawnRequest) :
  activeDocument h = Some doc -> workspaceFolders h = Some (root, rest) ->
  Posix.isAbsolute root = true ->
  run M (@generateTest (Posix.module cwd) h) w = (Some req, w') ->
  exists key,
    let inv := @resolveInvocation (Posix.module cwd) h key root doc in
    credential (settings h !! "apiKey") (processEnv h) = Some key
    /\ spawnCwd req = root
    /\ @testDirAbs (Posix.module cwd) root inv ∈ files w'
    /\ (".." ∉ Posix.split (Posix.dirname (finalTestPath inv)) ->
        inside root (@testDirAbs (Posix.module cwd) root inv)).
Proof.
  intros Hdoc Hws Habs Hrun.
  destruct (@ensured_directory_exists (Posix.module cwd) M h doc root rest w req w'
              Hdoc Hws Hrun) as (key & Hkey & -> & Hin).
  exists key. repeat split; [done..|].
  intros Hno. by apply join_root_inside.
Qed.

Lemma test_directory_inside_root_witness :
  let h := {| activeDocument := Some "/ws/app/calc.py";
              workspaceFolders := Some ("/ws", []);
              extensionPath := "/ext";
              isWindows := false;
              processEnv := {["DEEPSEEK_API_KEY" := "k"]};
              settings := ∅;
              numberSettings := ∅ |} in
  let inv := @resolveInvocation (Posix.module "/") h "k" "/ws" "/ws/app/calc.py" in
  @testDirAbs (Posix.module "/") "/ws" inv = "/ws/tests"
  /\ inside "/ws" (@testDirAbs (Posix.module "/") "/ws" inv).
Proof.
  intros h inv. split; [reflexivity|].
  pose (M := {| exec := fun _ _ _ => (ExecOk "installed" "", ∅);
                mkdirError := fun _ _ => None |}).
  pose (w := {| files := ∅; effects := []; commands := [] |}).
  destruct (run M (@generateTest (Posix.module "/") h) w) as [[req|] w'] eqn:Hrun;
    [|vm_compute in Hrun; discriminate].
  destruct (test_directory_inside_root "/" M h "/ws/app/calc.py" "/ws" [] w w' req
              eq_refl eq_refl eq_refl Hrun) as (key & Hkey & _ & _ & Hinside).
  vm_compute in Hkey. injection Hkey as <-.
  apply Hinside. apply (bool_decide_unpack _). by vm_compute.
Defined.

(** C4 as the specification words it fails: with the test path template
    [../outside/test_{fileName}] the directory that is created is [/outside],
    next to the workspace root [/ws] and not below it, and that is where the
    test path leads when it is resolved against the working directory [/ws]
    of the child. *)
Lemma parent_segments_leave_the_root :
  let h := {| activeDocument := Some "/ws/app/calc.py";
              workspaceFolders := Some ("/ws", []);
              extensionPath := "/ext";
              isWindows := false;
              processEnv := {["DEEPSEEK_API_KEY" := "k"]};
              settings := {["testFilePath" := "../outside/test_{fileName}"]};
              numberSettings := ∅ |} in
  let M := {| exec := fun _ _ _ => (ExecOk "installed" "", ∅);
              mkdirError := fun _ _ => None |} in
  let w := {| files := {["/ext/python_service/qodo-cover/venv/bin/cover-agent"]};
              effects := []; commands := [] |} in
  let inv := @resolveInvocation (Posix.module "/") h "k" "/ws" "/ws/app/calc.py" in
  let result := run M (@generateTest (Posix.module "/") h) w in
  finalTestPath inv = "../outside/test_calc.py"
  /\ @testDirAbs (Posix.module "/") "/ws" inv = "/outside"
  /\ (spawnArgs <$> result.1) = Some (args inv)
  /\ "/outside" ∈ files result.2
  /\ ~ inside "/ws" (@testDirAbs (Posix.module "/") "/ws" inv)
  /\ ~ inside "/ws" (Posix.resolve "/ws" (finalTestPath inv)).
Proof.
  intros h M w inv result.
  split; [by vm_compute|]. split; [by vm_compute|]. split; [by vm_compute|].
  split; [|split].
  - apply (bool_decide_unpack _). by vm_compute.
  - apply (bool_decide_eq_false_1 (inside _ _)). by vm_compute.
  - apply (bool_decide_eq_false_1 (inside _ _)). by vm_compute.
Qed.

(** An absolute test path: the directory that is created lies below the
    workspace root, while the path handed to the child, which the child
    resolves against its working directory [/ws], leads elsewhere. *)
Lemma absolute_test_path_is_joined_below_the_root :
  let h := {| activeDocument := Some "/ws/app/calc.py";
              workspaceFolders := Some ("/ws", []);
              extensionPath := "/ext";
              isWindows := false;
              processEnv := {["DEEPSEEK_API_KEY" := "k"]};
              settings := {["testFilePath" := "/srv/tests/test_{fileName}"]};
              numberSettings := ∅ |} in
  let inv := @resolveInvocation (Posix.module "/") h "k" "/ws" "/ws/app/calc.py" in
  finalTestPath inv = "/srv/tests/test_calc.py"
  /\ @testDirAbs (Posix.module "/") "/ws" inv = "/ws/srv/tests"
  /\ inside "/ws" (@testDirAbs (Posix.module "/") "/ws" inv)
  /\ ~ inside "/ws" (Posix.resolve "/ws" (finalTestPath inv)).
Proof.
  intros h inv. split; [by vm_compute|]. split; [by vm_compute|]. split.
  - apply (bool_decide_unpack _). by vm_compute.
  - apply (bool_decide_eq_false_1 (inside _ _)). by vm_compute.
Qed.
(** ** The API credential *)

Section Credential.
Implicit Types (env : gmap string string) (configured apiKey : option string).

Lemma truthy_Some v : JS.truthy v = true -> exists k, v = Some k /\ k <> "".
Proof. destruct v as [[|c k]|]; try discriminate. intros _. by eexists. Qed.

Lemma truthy_nonempty k : k <> "" -> JS.truthy (Some k) = true.
Proof. by destruct k. Qed.

Lemma falsy_cases v : JS.truthy v = false <-> v = None \/ v = Some "".
Proof.
  split; [destruct v as [[|c k]|]; auto; discriminate|].
  by intros [-> | ->].
Qed.

(** The loop skips every falsy variable it meets. *)
Lemma scanEnv_skip env before rest apiKey :
  Forall (fun k => JS.truthy (env !! k) = false) before ->
  scanEnv env (before ++ rest) apiKey = scanEnv env rest apiKey.
Proof.
  induction 1 as [|k before Hk _ IH]; simpl; [done|]. by rewrite Hk.
Qed.

Lemma scanEnv_hit env key rest apiKey :
  JS.truthy (env !! key) = true ->
  scanEnv env (key :: rest) apiKey = env !! key.
Proof. simpl. by intros ->. Qed.

Lemma scanEnv_none env keys apiKey :
  Forall (fun k => JS.truthy (env !! k) = false) keys ->
  scanEnv env keys apiKey = apiKey.
Proof.
  intros Hall. rewrite <- (app_nil_r keys). by rewrite scanEnv_skip.
Qed.

(** Either the loop stops at the first truthy variable, or there is none. *)
Lemma scanEnv_cases env keys apiKey :
  (exists before key after,
      keys = before ++ key :: after /\
      Forall (fun k => JS.truthy (env !! k) = false) before /\
      JS.truthy (env !! key) = true /\
      scanEnv env keys apiKey = env !! key)
  \/ (Forall (fun k => JS.truthy (env !! k) = false) keys /\
      scanEnv env keys apiKey = apiKey).
Proof.
  induction keys as [|k keys IH]; simpl.
  - right. by split.
  - destruct (JS.truthy (env !! k)) eqn:E.
    + left. exists [], k, keys. by repeat split.
    + destruct IH as [(before & key & after & -> & Hb & Hk & Hs) | [Hall Hs]].
      * left. exists (k :: before), key, after. repeat split; auto.
      * right. split; auto.
Qed.

Lemma falsy_Forall env keys :
  Forall (fun k => JS.truthy (env !! k) = false) keys <->
  Forall (fun k => env !! k = None \/ env !! k = Some "") keys.
Proof. apply Forall_iff. intros k. apply falsy_cases. Qed.

Lemma credential_meets_spec configured env :
  CredentialSpec configured env (credential configured env).
Proof.
  unfold credential, readApiKey.
  destruct (JS.truthy configured) eqn:Hc; cbn [negb].
  - rewrite Hc. cbn [negb]. apply truthy_Some in Hc as (k & -> & Hk).
    by apply FromSetting.
  - destruct (scanEnv_cases env possibleEnvKeys configured)
      as [(before & key & after & Hsplit & Hb & Hk & ->) | [Hall ->]].
    + rewrite Hk. cbn [negb]. apply truthy_Some in Hk as Hv.
      destruct Hv as (v & Hv & Hne). rewrite Hv.
      eapply FromEnvironment; eauto. by apply falsy_Forall.
    + rewrite Hc. cbn [negb]. apply ConfigError; auto. by apply falsy_Forall.
Qed.

Lemma credential_None configured env :
  credential configured env = None <->
  (configured = None \/ configured = Some "") /\
  Forall (fun k => env !! k = None \/ env !! k = Some "") possibleEnvKeys.
Proof.
  rewrite <- falsy_cases, <- falsy_Forall. split.
  - unfold credential, readApiKey.
    destruct (JS.truthy configured) eqn:Hc; cbn [negb].
    + rewrite Hc. cbn [negb]. intros ->. discriminate.
    + intros Hnone. split; [done|].
      destruct (scanEnv_cases env possibleEnvKeys configured)
        as [(before & key & after & Hsplit & Hb & Hk & Heq) | [Hall _]]; [|done].
      rewrite Heq, Hk in Hnone. cbn [negb] in Hnone.
      rewrite Hnone in Hk. discriminate.
  - intros [Hc Hall]. unfold credential, readApiKey. rewrite Hc. cbn [negb].
    rewrite scanEnv_none by done. by rewrite Hc.
Qed.

Lemma spec_determines_credential configured env r :
  CredentialSpec configured env r -> r = credential configured env.
Proof.
  unfold credential, readApiKey.
  intros [k -> Hk | before key after v Hc Hsplit Hb Hkey Hv | Hc Hall].
  - rewrite truthy_nonempty by done. cbn [negb].
    by rewrite truthy_nonempty by done.
  - rewrite Hc, Hsplit. cbn [negb].
    rewrite scanEnv_skip by (by apply falsy_Forall).
    rewrite scanEnv_hit by (rewrite Hkey; by apply truthy_nonempty).
    rewrite Hkey. by rewrite truthy_nonempty by done.
  - rewrite Hc. cbn [negb]. rewrite scanEnv_none by (by apply falsy_Forall).
    by rewrite Hc.
Qed.

(** A variable set to the empty string is passed over like an unset one. *)
Lemma scanEnv_empty_value env keys apiKey k :
  scanEnv (<[k := ""]> env) keys apiKey = scanEnv (delete k env) keys apiKey.
Proof.
  induction keys as [|key keys IH]; simpl; [done|].
  destruct (decide (k = key)) as [->|Hne].
  - by rewrite lookup_insert_eq, lookup_delete_eq.
  - by rewrite lookup_insert_ne, lookup_delete_ne, IH by done.
Qed.

Lemma credential_empty_setting env :
  credential (Some "") env = credential None env.
Proof.
  unfold credential, readApiKey. cbn [JS.truthy negb].
  induction possibleEnvKeys as [|key keys IH]; simpl; [done|].
  by destruct (JS.truthy (env !! key)).
Qed.

Lemma credential_empty_value configured env k :
  credential configured (<[k := ""]> env) = credential configured (delete k env).
Proof. unfold credential, readApiKey. by rewrite scanEnv_empty_value. Qed.

End Credential.

Section CredentialInCommand.
Context `{PathModule}.

(** With a document and a folder open, the command stops at the API-key
    error exactly when no credential is found. *)
Lemma generateTest_config_error h doc ws :
  activeDocument h = Some doc -> workspaceFolders h = Some ws ->
  generateTest h = Do (Show ApiKeyMissing) (Ret None) <->
  credential (settings h !! "apiKey") (processEnv h) = None.
Proof.
  intros Hdoc Hws. unfold generateTest. rewrite Hdoc, Hws. destruct ws as [root rest].
  destruct (credential _ _) as [key|]; [|done].
  split; [|done]. unfold setupPythonEnvironment. simpl. discriminate.
Qed.

(** Apart from the credential, the run does not read the [apiKey] setting. *)
Lemma resolveInvocation_empty_apiKey h key root doc :
  resolveInvocation (with_settings h (<["apiKey" := ""]> (settings h))) key root doc =
  resolveInvocation (with_settings h (delete "apiKey" (settings h))) key root doc.
Proof.
  unfold resolveInvocation, with_settings. cbn [settings numberSettings].
  by rewrite !lookup_insert_ne, !lookup_delete_ne by discriminate.
Qed.

Lemma generateTest_empty_apiKey h :
  generateTest (with_settings h (<["apiKey" := ""]> (settings h))) =
  generateTest (with_settings h (delete "apiKey" (settings h))).
Proof.
  unfold generateTest.
  cbn [activeDocument workspaceFolders with_settings].
  destruct (activeDocument h) as [doc|]; [|done].
  destruct (workspaceFolders h) as [[root rest]|]; [|done].
  cbn [settings processEnv with_settings].
  rewrite lookup_insert_eq, lookup_delete_eq.
  rewrite credential_empty_setting.
  destruct (credential None (processEnv h)) as [key|]; [|done].
  rewrite resolveInvocation_empty_apiKey.
  reflexivity.
Qed.

End CredentialInCommand.

(** C5: the credential is the [apiKey] setting when it is non-empty, and
    otherwise the first non-empty value among [OPENAI_API_KEY],
    [FIREWORKS_AI_API_KEY], [DEEPSEEK_API_KEY], [ANTHROPIC_API_KEY],
    [GEMINI_API_KEY], [GROQ_API_KEY] and [QODO_API_KEY], tried in that order
    (with [OPENAI_API_KEY=a] and [DEEPSEEK_API_KEY=b] the result is [a]); the
    command aborts with the API-key error if and only if the setting and all
    seven variables are absent or empty. *)
Theorem credential_resolution `{PathModule} (h : Host) :
  let configured := settings h !! "apiKey" in
  let env := processEnv h in
  possibleEnvKeys =
    ["OPENAI_API_KEY"; "FIREWORKS_AI_API_KEY"; "DEEPSEEK_API_KEY";
     "ANTHROPIC_API_KEY"; "GEMINI_API_KEY"; "GROQ_API_KEY"; "QODO_API_KEY"]
  /\ (forall r, CredentialSpec configured env r <-> r = credential configured env)
  /\ (forall k, configured = Some k -> k <> "" -> credential configured env = Some k)
  /\ ((configured = None \/ configured = Some "") ->
      env !! "OPENAI_API_KEY" = Some "a" -> env !! "DEEPSEEK_API_KEY" = Some "b" ->
      credential configured env = Some "a")
  /\ (credential configured env = None <->
      (configured = None \/ configured = Some "") /\
      Forall (fun k => env !! k = None \/ env !! k = Some "") possibleEnvKeys)
  /\ (forall doc ws,
        activeDocument h = Some doc -> workspaceFolders h = Some ws ->
        generateTest h = Do (Show ApiKeyMissing) (Ret None) <->
        credential configured env = None).
Proof.
  intros configured env. split; [reflexivity|]. split; [|split; [|split; [|split]]].
  - intros r. split; [apply spec_determines_credential|].
    intros ->. apply credential_meets_spec.
  - intros k Hk Hne. symmetry. apply spec_determines_credential.
    by apply FromSetting.
  - intros Hc Ha Hb. symmetry. apply spec_determines_credential.
    apply (FromEnvironment configured env [] "OPENAI_API_KEY"
             (tail possibleEnvKeys) "a"); auto.
    by apply falsy_cases.
  - apply credential_None.
  - intros doc ws. apply generateTest_config_error.
Qed.

(** C10: an [apiKey] setting that is the empty string is treated exactly like
    an absent one, the lookup going on to the environment variables; and a
    variable set to the empty string is passed over exactly like an unset
    one. *)
Theorem empty_credential_is_absent `{PathModule} (h : Host) (k : string) :
  let env := processEnv h in
  credential (Some "") env = credential None env
  /\ (forall before key after v,
        possibleEnvKeys = before ++ key :: after ->
        Forall (fun k' => env !! k' = None \/ env !! k' = Some "") before ->
        env !! key = Some v -> v <> "" ->
        credential (Some "") env = Some v)
  /\ generateTest (with_settings h (<["apiKey" := ""]> (settings h))) =
     generateTest (with_settings h (delete "apiKey" (settings h)))
  /\ credential (settings h !! "apiKey") (<[k := ""]> env) =
     credential (settings h !! "apiKey") (delete k env).
Proof.
  intros env. split; [apply credential_empty_setting|]. split; [|split].
  - intros before key after v Hsplit Hb Hkey Hv. symmetry.
    apply spec_determines_credential. by eapply FromEnvironment.
  - apply generateTest_empty_apiKey.
  - apply credential_empty_value.
Qed.

(** ** The end-to-end scenario *)

(** C6: with workspace root [/ws], active file [/ws/app/calc.py] and the three
    templates left at their defaults, the source path resolves to
    [app/calc.py], the test path to [tests/test_calc.py] and the test command
    to [pytest tests/test_calc.py --cov=app --cov-branch --cov-report=xml
    --cov-report=html]. *)
Theorem default_templates_scenario (cwd key : string) (h : Host) :
  JS.truthy (settings h !! "sourceFilePath") = false ->
  JS.truthy (settings h !! "testFilePath") = false ->
  JS.truthy (settings h !! "testCommand") = false ->
  let c := @pathContext (Posix.module cwd) "/ws" "/ws/app/calc.py" in
  let inv := @resolveInvocation (Posix.module cwd) h key "/ws" "/ws/app/calc.py" in
  (sourceRelPath c = "app/calc.py" /\ fileName c = "calc.py" /\ sourceDir c = "app")
  /\ finalSourcePath inv = "app/calc.py"
  /\ finalTestPath inv = "tests/test_calc.py"
  /\ finalTestCommand inv =
       "pytest tests/test_calc.py --cov=app --cov-branch --cov-report=xml --cov-report=html".
Proof.
  intros Hs Ht Hc c inv. split; [by vm_compute|].
  subst inv. unfold resolveInvocation.
  cbn [finalSourcePath finalTestPath finalTestCommand].
  apply falsy_cases in Hs as [-> | ->], Ht as [-> | ->], Hc as [-> | ->];
    by vm_compute.
Qed.

Lemma default_templates_scenario_witness :
  let h := {| activeDocument := Some "/ws/app/calc.py";
              workspaceFolders := Some ("/ws", []);
              extensionPath := "/ext";
              isWindows := false;
              processEnv := {["DEEPSEEK_API_KEY" := "k"]};
              settings := ∅;
              numberSettings := ∅ |} in
  let inv := @resolveInvocation (Posix.module "/") h "k" "/ws" "/ws/app/calc.py" in
  finalSourcePath inv = "app/calc.py"
  /\ finalTestPath inv = "tests/test_calc.py"
  /\ finalTestCommand inv =
       "pytest tests/test_calc.py --cov=app --cov-branch --cov-report=xml --cov-report=html".
Proof.
  intros h.
  apply (default_templates_scenario "/" "k" h eq_refl eq_refl eq_refl).
Defined.

(** ** The bootstrap's fast path *)

(** C7: when the executable is already there, at [Scripts/cover-agent.exe]
    under the virtual environment on Windows and at [bin/cover-agent]
    otherwise, [setupPythonEnvironment] returns [true] at once, without
    awaiting anything, and leaves the world as it found it: no command is
    started (neither the creation of the virtual environment nor the
    installation of the dependencies), nothing is shown, no file appears. *)
Theorem bootstrap_fast_path `{PathModule} (M : Machine) (windows : bool)
    (root : string) (w : World) :
  coverAgentPath windows root ∈ files w ->
  coverAgentPath windows root =
    join [join [join [root; "python_service"; "qodo-cover"]; "venv"];
          if windows then "Scripts" else "bin";
          if windows then "cover-agent.exe" else "cover-agent"]
  /\ run M (setupPythonEnvironment windows root) w = (true, w)
  /\ advance M (setupPythonEnvironment windows root) w = (Finished true, w).
Proof.
  intros Hin. split; [reflexivity|].
  unfold setupPythonEnvironment. cbn [run advance].
  by rewrite bool_decide_eq_true_2.
Qed.

Lemma bootstrap_fast_path_witness :
  let M := {| exec := fun _ _ _ => (ExecFailed "python3: not found", ∅);
              mkdirError := fun _ _ => None |} in
  let w := {| files := {["/ext/python_service/qodo-cover/venv/bin/cover-agent"]};
              effects := []; commands := [] |} in
  @coverAgentPath (Posix.module "/") false "/ext" =
    "/ext/python_service/qodo-cover/venv/bin/cover-agent"
  /\ run M (@setupPythonEnvironment (Posix.module "/") false "/ext") w = (true, w)
  /\ commands (run M (@setupPythonEnvironment (Posix.module "/") false "/ext") w).2 = [].
Proof.
  intros M w.
  destruct (@bootstrap_fast_path (Posix.module "/") M false "/ext" w) as (Hp & Hr & _).
  - vm_compute. reflexivity.
  - split; [by vm_compute|]. split; [exact Hr|]. by rewrite Hr.
Defined.

(** ** Supervision *)

Section Supervision.
Implicit Types (s : Supervisor) (es : list Event).

Lemma outcomes_say s effs :
  outcomes (say effs s) = outcomes s ++ omap outcome_of effs.
Proof. unfold outcomes, say. simpl. apply omap_app. Qed.

(** Stream output changes nothing but the channel. *)
Lemma output_is_silent s e :
  is_output e = true ->
  isCancellationRequested (handle s e) = isCancellationRequested s
  /\ kills (handle s e) = kills s
  /\ resolves (handle s e) = resolves s
  /\ outcomes (handle s e) = outcomes s.
Proof.
  destruct e; try discriminate; intros _; simpl;
    rewrite outcomes_say; simpl; by rewrite app_nil_r.
Qed.

(** Once cancellation has been requested, neither output nor the exit of
    the child reports anything. *)
Lemma cancelled_is_silent s e :
  isCancellationRequested s = true ->
  is_output_or_close e = true ->
  isCancellationRequested (handle s e) = true
  /\ kills (handle s e) = kills s
  /\ resolves (handle s e) = resolves s
  /\ outcomes (handle s e) = outcomes s.
Proof.
  intros Hc. destruct e; try discriminate; intros _.
  - destruct (output_is_silent s (StdoutData data)) as (-> & ?); auto.
  - destruct (output_is_silent s (StderrData data)) as (-> & ?); auto.
  - simpl. by rewrite Hc.
Qed.

Lemma output_run_is_silent es s :
  Forall (fun e => is_output e = true) es ->
  isCancellationRequested (foldl handle s es) = isCancellationRequested s
  /\ kills (foldl handle s es) = kills s
  /\ resolves (foldl handle s es) = resolves s
  /\ outcomes (foldl handle s es) = outcomes s.
Proof.
  intros Hall. revert s. induction Hall as [|e es He _ IH]; intros s; [done|].
  simpl. destruct (IH (handle s e)) as (-> & -> & -> & ->).
  by apply output_is_silent.
Qed.

Lemma cancelled_run_is_silent es s :
  isCancellationRequested s = true ->
  Forall (fun e => is_output_or_close e = true) es ->
  isCancellationRequested (foldl handle s es) = true
  /\ kills (foldl handle s es) = kills s
  /\ resolves (foldl handle s es) = resolves s
  /\ outcomes (foldl handle s es) = outcomes s.
Proof.
  intros Hc Hall. revert s Hc. induction Hall as [|e es He _ IH]; intros s Hc; [done|].
  simpl. destruct (cancelled_is_silent s e Hc He) as (Hc' & <- & <- & <-).
  by apply IH.
Qed.

Lemma cancellation_step s :
  isCancellationRequested (handle s CancellationRequested) = true
  /\ kills (handle s CancellationRequested) = S (kills s)
  /\ resolves (handle s CancellationRequested) = S (resolves s)
  /\ outcomes (handle s CancellationRequested) = outcomes s ++ [Cancelled].
Proof. unfold outcomes. simpl. by rewrite omap_app. Qed.

(** A child that exits without a launch error or a cancellation is reported
    once, as [Success] for code 0 and as [Failure] otherwise. *)
Lemma exit_reported_once es1 code es2 :
  Forall (fun e => is_output e = true) es1 ->
  Forall (fun e => is_output e = true) es2 ->
  outcomes (supervise (es1 ++ Close code :: es2))
  = [if bool_decide (code = Some 0%Z) then Success else Failure].
Proof.
  intros H1 H2. unfold supervise. rewrite foldl_app. cbn [foldl].
  destruct (output_run_is_silent es1 spawned H1) as (Hc & _ & _ & Ho).
  destruct (output_run_is_silent es2 (handle (foldl handle spawned es1) (Close code)) H2)
    as (_ & _ & _ & ->).
  cbn [handle]. rewrite Hc. cbn [isCancellationRequested spawned].
  unfold outcomes in *. case_bool_decide; simpl; rewrite omap_app, Ho; done.
Qed.

End Supervision.

(** C1: when cancellation is requested while the child is alive (so far it
    has only produced output), the supervisor kills the child, reports
    [Cancelled], and that is the one outcome of the run: whatever output
    still arrives and whatever code the child then exits with, neither
    [Success] nor [Failure] is reported, and [Cancelled] is not reported
    again. *)
Theorem cancellation_reported_once (before after : list Event) :
  Forall (fun e => is_output e = true) before ->
  Forall (fun e => is_output_or_close e = true) after ->
  let s := supervise (before ++ CancellationRequested :: after) in
  kills s = 1
  /\ outcomes s = [Cancelled]
  /\ resolves s = 1
  /\ kills (supervise before) = 0
  /\ outcomes (supervise before) = [].
Proof.
  intros Hb Ha s. subst s. unfold supervise. rewrite foldl_app. cbn [foldl].
  destruct (output_run_is_silent before spawned Hb) as (Hc & Hk & Hr & Ho).
  destruct (cancellation_step (foldl handle spawned before)) as (Hc1 & Hk1 & Hr1 & Ho1).
  destruct (cancelled_run_is_silent after _ Hc1 Ha) as (_ & -> & -> & ->).
  rewrite Hk1, Hr1, Ho1, Hk, Hr, Ho. done.
Qed.

Lemma cancellation_reported_once_witness :
  let s := supervise [StdoutData "collecting"; StderrData "warning";
                      CancellationRequested;
                      StdoutData "late"; Close None] in
  kills s = 1 /\ outcomes s = [Cancelled] /\ resolves s = 1.
Proof.
  intros s.
  destruct (cancellation_reported_once
              [StdoutData "collecting"; StderrData "warning"]
              [StdoutData "late"; Close None]) as (Hk & Ho & Hr & _).
  - repeat constructor.
  - repeat constructor.
  - by repeat split.
Defined.

(** C2, at the input where the code departs from it: a launch error followed
    by the close event that Node emits for the same failed spawn is reported
    twice, once as a launch error and once more from the exit code. *)
Theorem launch_error_reported_twice (message : string) (code : option Z) :
  code <> Some 0%Z ->
  let s := supervise [ProcessError message; Close code] in
  outcomes s = [Failure; Failure]
  /\ omap (fun e => match e with Show n => Some n | _ => None end) (shown s) =
       [RunLaunchError message; RunExitError code]
  /\ resolves s = 2.
Proof.
  intros Hcode s. subst s. unfold supervise. simpl.
  rewrite bool_decide_eq_false_2 by done. done.
Qed.

Lemma launch_error_reported_twice_witness :
  outcomes (supervise [ProcessError "spawn cover-agent ENOENT"; Close (Some (-2)%Z)])
  = [Failure; Failure].
Proof.
  apply (launch_error_reported_twice "spawn cover-agent ENOENT" (Some (-2)%Z)).
  discriminate.
Defined.

(** ** Overlapping bootstraps *)

Section SingleFlight.
Context `{PathModule} (M : Machine) (windows : bool) (root : string).

Lemma advance_handler w :
  bootstrap_task windows root
    (advance M (setupPythonEnvironment windows root) w).1.
Proof.
  unfold setupPythonEnvironment. cbn [advance].
  destruct (bool_decide _); cbn; constructor.
Qed.

Lemma advance_afterCreate r w :
  bootstrap_task windows root (advance M (afterCreate windows root r) w).1.
Proof. destruct r; cbn; constructor. Qed.

Lemma advance_afterInstall r w :
  bootstrap_task windows root (advance M (afterInstall r) w).1.
Proof. destruct r as [out [|c err]|m]; cbn; constructor. Qed.

Lemma step_keeps_tasks (l : Loop bool) e :
  Forall (bootstrap_task windows root) (tasks l) ->
  Forall (bootstrap_task windows root)
    (tasks (loop_step M (setupPythonEnvironment windows root) l e)).
Proof.
  intros Hall. destruct e as [|i r created]; cbn [loop_step].
  - pose proof (advance_handler (world l)) as Ht.
    destruct (advance M (setupPythonEnvironment windows root) (world l)) as [t w].
    cbn [tasks]. apply Forall_app. split; [done|]. by constructor.
  - destruct (tasks l !! i) as [[c d k|b]|] eqn:Hi; try done.
    assert (bootstrap_task windows root (Awaiting c d k)) as Hk
      by (eapply Forall_lookup_1; eauto).
    assert (bootstrap_task windows root
              (advance M (k r) (settled created (world l))).1) as Ht.
    { inversion Hk; subst; [apply advance_afterCreate|apply advance_afterInstall]. }
    destruct (advance M (k r) _) as [t w]. cbn [tasks].
    by apply Forall_insert.
Qed.

Lemma in_flight_cons {R} (t : Task R) ts w :
  length (in_flight {| world := w; tasks := t :: ts |})
  = (if is_awaiting t then 1 else 0)
    + length (in_flight {| world := w; tasks := ts |}).
Proof. unfold in_flight. cbn [tasks omap list_omap]. by destruct t. Qed.

(** A settled command makes room for at most one other. *)
Lemma settle_in_flight {R} (ts : list (Task R)) i c d k t w w' :
  ts !! i = Some (Awaiting c d k) ->
  length (in_flight {| world := w'; tasks := <[i := t]> ts |})
  <= length (in_flight {| world := w; tasks := ts |}).
Proof.
  revert i. induction ts as [|t0 ts IH]; intros i Hi; [done|].
  destruct i as [|i]; cbn [lookup list_lookup] in Hi.
  - injection Hi as ->. cbn [insert list_insert].
    rewrite !in_flight_cons. cbn [is_awaiting].
    unfold in_flight. cbn [tasks]. destruct (is_awaiting t); lia.
  - cbn [insert list_insert]. rewrite !in_flight_cons.
    apply Nat.add_le_mono_l. by apply IH.
Qed.

Lemma trigger_in_flight {R} (ts : list (Task R)) t w w' :
  in_flight {| world := w; tasks := ts |} = [] ->
  length (in_flight {| world := w'; tasks := ts ++ [t] |}) <= 1.
Proof.
  unfold in_flight. cbn [tasks]. rewrite omap_app. intros ->.
  destruct t; cbn; lia.
Qed.

Lemma serial_run_single_flight (l : Loop bool) es :
  length (in_flight l) <= 1 ->
  serial M (setupPythonEnvironment windows root) l es = true ->
  length (in_flight (loop_run M (setupPythonEnvironment windows root) l es)) <= 1.
Proof.
  revert l. induction es as [|e es IH]; intros l Hl Hs; [done|].
  cbn [serial] in Hs. apply andb_prop in Hs as [He Hs].
  cbn [loop_run foldl]. apply IH; [|done].
  destruct e as [|i r created]; cbn [loop_step].
  - apply bool_decide_eq_true_1 in He.
    destruct (advance M (setupPythonEnvironment windows root) (world l)) as [t w].
    destruct l as [w0 ts]. by eapply trigger_in_flight.
  - destruct (tasks l !! i) as [[c d k|b]|] eqn:Hi; try done.
    destruct (advance M (k r) _) as [t w].
    destruct l as [w0 ts]. cbn [tasks] in *.
    etrans; [by eapply settle_in_flight|done].
Qed.

Lemma run_keeps_tasks (l : Loop bool) es :
  Forall (bootstrap_task windows root) (tasks l) ->
  Forall (bootstrap_task windows root)
    (tasks (loop_run M (setupPythonEnvironment windows root) l es)).
Proof.
  revert l. induction es as [|e es IH]; intros l Hl; [done|].
  cbn [loop_run foldl]. apply IH. by apply step_keeps_tasks.
Qed.

Lemma bootstrap_commands (l : Loop bool) cmd :
  Forall (bootstrap_task windows root) (tasks l) -> cmd ∈ in_flight l ->
  cmd = (venvCommand windows, qodoCoverDir root)
  \/ cmd = (pipCommand windows, qodoCoverDir root).
Proof.
  unfold in_flight. intros Hall (t & Ht & Hcmd)%list_elem_of_omap.
  rewrite Forall_forall in Hall. specialize (Hall t Ht).
  inversion Hall; subst; simplify_eq; auto.
Qed.

(** Once the executable is there, a trigger starts nothing. *)
Lemma trigger_with_executable (l : Loop bool) :
  coverAgentPath windows root ∈ files (world l) ->
  loop_step M (setupPythonEnvironment windows root) l Trigger
  = {| world := world l; tasks := tasks l ++ [Finished true] |}.
Proof.
  intros Hin. unfold loop_step, setupPythonEnvironment. cbn [advance].
  by rewrite bool_decide_eq_true_2.
Qed.

End SingleFlight.

(** C9, as the code has it. Nothing in the bootstrap makes a second
    invocation wait or turns it away; what holds is that triggers which do
    not overlap (none arrives while a command of an earlier one is in
    flight) never have more than one command in flight, that command being
    the creation of the virtual environment or the installation of the
    dependencies in the qodo-cover directory, and that a trigger which finds
    the executable starts no command at all. *)
Theorem bootstrap_one_at_a_time_when_serial `{PathModule} (M : Machine)
    (windows : bool) (root : string) (present : gset string) (es : list LoopEvent) :
  serial M (setupPythonEnvironment windows root) (idle present) es = true ->
  let l := loop_run M (setupPythonEnvironment windows root) (idle present) es in
  length (in_flight l) <= 1
  /\ (forall cmd, cmd ∈ in_flight l ->
        cmd = (venvCommand windows, qodoCoverDir root)
        \/ cmd = (pipCommand windows, qodoCoverDir root))
  /\ (coverAgentPath windows root ∈ files (world l) ->
      let l' := loop_step M (setupPythonEnvironment windows root) l Trigger in
      in_flight l' = in_flight l /\ commands (world l') = commands (world l)).
Proof.
  intros Hs l. split; [|split].
  - apply serial_run_single_flight; [cbn; lia|done].
  - intros cmd. apply bootstrap_commands, run_keeps_tasks. constructor.
  - intros Hin l'. subst l'. rewrite trigger_with_executable by done.
    split; [|done]. unfold in_flight. cbn [tasks].
    rewrite omap_app. cbn. by rewrite app_nil_r.
Qed.

Lemma bootstrap_one_at_a_time_when_serial_witness :
  let M := {| exec := fun _ _ _ => (ExecOk "" "", ∅);
              mkdirError := fun _ _ => None |} in
  let es := [Trigger; Settle 0 (ExecFailed "python3: not found") ∅; Trigger] in
  let l := loop_run M (@setupPythonEnvironment (Posix.module "/") false "/ext")
             (idle ∅) es in
  length (in_flight l) <= 1
  /\ in_flight l = [("python3 -3.11 -m venv venv", "/ext/python_service/qodo-cover")].
Proof.
  intros M es l. split; [|by vm_compute].
  apply (@bootstrap_one_at_a_time_when_serial (Posix.module "/") M false "/ext" ∅ es).
  by vm_compute.
Defined.

(** C9 as the specification words it fails: a second trigger that arrives
    while the first one is still creating the virtual environment finds the
    executable missing as well and starts a second creation in the same
    directory. *)
Lemma overlapping_triggers_install_twice :
  let M := {| exec := fun _ _ _ => (ExecOk "" "", ∅);
              mkdirError := fun _ _ => None |} in
  let l := loop_run M (@setupPythonEnvironment (Posix.module "/") false "/ext")
             (idle ∅) [Trigger; Trigger] in
  in_flight l =
    [("python3 -3.11 -m venv venv", "/ext/python_service/qodo-cover");
     ("python3 -3.11 -m venv venv", "/ext/python_service/qodo-cover")]
  /\ commands (world l) = in_flight l
  /\ ~ length (in_flight l) <= 1.
Proof.
  intros M l. split; [by vm_compute|]. split; [by vm_compute|].
  vm_compute. lia.
Qed.

(** ** Further properties of the supervisor *)

(** Whatever else happens in a run, the channel receives the output of the
    child chunk by chunk in the order of arrival; output that arrives after a
    cancellation, a close or an error event is appended all the same. *)
Theorem channel_receives_output_in_order (es : list Event) :
  appended (shown (supervise es)) = output_data es.
Proof.
  unfold supervise.
  enough (forall s, appended (shown (foldl handle s es))
                    = appended (shown s) ++ output_data es) as Hgen
    by (rewrite Hgen; done).
  induction es as [|e es IH]; intros s; cbn [foldl].
  - unfold output_data. simpl. by rewrite app_nil_r.
  - rewrite IH. unfold output_data. cbn [omap list_omap].
    destruct e as [|d|d|code|m]; cbn [handle].
    + unfold appended. cbn. rewrite omap_app. cbn. by rewrite app_nil_r.
    + unfold appended. cbn. rewrite omap_app. cbn. by rewrite <- app_assoc.
    + unfold appended. cbn. rewrite omap_app. cbn. by rewrite <- app_assoc.
    + destruct (isCancellationRequested s); [done|].
      case_bool_decide; unfold appended; cbn; rewrite omap_app; cbn;
        by rewrite app_nil_r.
    + unfold appended. cbn. rewrite omap_app. cbn. by rewrite app_nil_r.
Qed.

(** The child is killed by a cancellation request and by nothing else: the
    number of [kill] calls is the number of cancellation events, so a run
    without one never kills the child, however long it goes on. *)
Theorem killed_only_on_cancellation (es : list Event) :
  kills (supervise es) = length (filter (fun e => is_cancellation e = true) es).
Proof.
  unfold supervise.
  enough (forall s, kills (foldl handle s es)
                    = kills s + length (filter (fun e => is_cancellation e = true) es))
    as Hgen by (rewrite Hgen; done).
  induction es as [|e es IH]; intros s; cbn [foldl].
  - simpl. lia.
  - rewrite IH. destruct e as [|d|d|code|m]; cbn [handle].
    + rewrite filter_cons_True by done. simpl. lia.
    + rewrite filter_cons_False by done. done.
    + rewrite filter_cons_False by done. done.
    + rewrite filter_cons_False by done.
      destruct (isCancellationRequested s); [done|]. by case_bool_decide.
    + rewrite filter_cons_False by done. done.
Qed.

Lemma exit_reported_once_witness :
  outcomes (supervise [StdoutData "collected 3 items"; Close (Some 0%Z);
                       StderrData "late"])
  = [Success]
  /\ outcomes (supervise [StdoutData "collected 3 items"; Close None]) = [Failure].
Proof.
  split.
  - apply (exit_reported_once [StdoutData "collected 3 items"] (Some 0%Z)
             [StderrData "late"]); repeat constructor.
  - apply (exit_reported_once [StdoutData "collected 3 items"] None []);
      repeat constructor.
Defined.

(** ** Further properties of the settings and of the paths *)

(** [toPosixPath] keeps the length of a path and turns every platform
    separator into a slash: applying it twice changes nothing more, a path
    without separators is left as it is, and where the separator is not the
    slash itself none is left in the result. *)
Theorem toPosixPath_replaces_separators `{PathModule} (p : string) :
  toPosixPath (toPosixPath p) = toPosixPath p
  /\ String.length (toPosixPath p) = String.length p
  /\ (has_char sep p = false -> toPosixPath p = p)
  /\ (sep = "/"%char -> toPosixPath p = p)
  /\ (sep <> "/"%char -> has_char sep (toPosixPath p) = false).
Proof.
  repeat split.
  - induction p as [|c p IH]; [done|]. cbn [toPosixPath]. rewrite IH. f_equal.
    destruct (Ascii.eqb_spec c sep) as [->|Hc].
    + by destruct (Ascii.eqb "/" sep).
    + by rewrite (proj2 (Ascii.eqb_neq c sep) Hc).
  - induction p as [|c p IH]; [done|]. cbn [toPosixPath String.length]. by rewrite IH.
  - induction p as [|c p IH]; [done|]. cbn [toPosixPath has_char].
    intros [Hc Hp]%orb_false_elim. by rewrite Hc, IH.
  - intros Hsep. induction p as [|c p IH]; [done|]. cbn [toPosixPath]. rewrite IH.
    destruct (Ascii.eqb_spec c sep); congruence.
  - intros Hsep. induction p as [|c p IH]; [done|]. cbn [toPosixPath has_char].
    rewrite IH, orb_false_r. destruct (Ascii.eqb_spec c sep) as [->|Hc].
    + apply Ascii.eqb_neq. congruence.
    + by apply Ascii.eqb_neq.
Qed.

Lemma or_default_empty (st : gmap string string) (k q d : string) :
  JS.or_default (<[k := ""]> st !! q) d = JS.or_default (delete k st !! q) d.
Proof.
  destruct (decide (k = q)) as [->|Hne].
  - by rewrite lookup_insert_eq, lookup_delete_eq.
  - by rewrite lookup_insert_ne, lookup_delete_ne.
Qed.

Lemma credential_nonempty configured env key :
  credential configured env = Some key -> key <> "".
Proof.
  unfold credential. destruct (readApiKey configured env) as [[|c k]|]; try done.
  cbn. by intros [= <-].
Qed.

(** A string setting that is the empty string counts as unset, whichever
    setting it is: the templates, the model, the base URL, the report path
    and the coverage type fall back to their defaults. The three numeric
    settings fall back only when they are unset, so a configured [0] is
    passed on as [0]. *)
Theorem empty_string_setting_is_unset `{PathModule} (h : Host)
    (k key root doc : string) (z : Z) :
  resolveInvocation (with_settings h (<[k := ""]> (settings h))) key root doc
  = resolveInvocation (with_settings h (delete k (settings h))) key root doc
  /\ (numberSettings h !! "desiredCoverage" = Some z ->
      desiredCoverage (resolveInvocation h key root doc) = z)
  /\ (numberSettings h !! "maxIterations" = Some z ->
      maxIterations (resolveInvocation h key root doc) = z)
  /\ (numberSettings h !! "maxFixAttempts" = Some z ->
      maxFixAttempts (resolveInvocation h key root doc) = z).
Proof.
  split; [|repeat split; intros Hz; unfold resolveInvocation; simpl; by rewrite Hz].
  unfold resolveInvocation, with_settings. cbn [settings numberSettings].
  by rewrite !or_default_empty.
Qed.

(** When the command reaches [spawn], the child is given the credential that
    was found, which is never empty, as [OPENAI_API_KEY], even when it came
    from the setting or from another variable, and the base URL as
    [OPENAI_BASE_URL]; every other variable it inherits as it is, and its
    working directory is the workspace root. *)
Theorem child_environment `{PathModule} (M : Machine) (h : Host)
    (doc root : string) (rest : list string) (w w' : World) (req : SpawnRequest) :
  activeDocument h = Some doc -> workspaceFolders h = Some (root, rest) ->
  run M (generateTest h) w = (Some req, w') ->
  exists key,
    credential (settings h !! "apiKey") (processEnv h) = Some key
    /\ key <> ""
    /\ spawnEnv req !! "OPENAI_API_KEY" = Some key
    /\ spawnEnv req !! "OPENAI_BASE_URL"
       = Some (JS.or_default (settings h !! "baseUrl") "https://api.deepseek.com")
    /\ (forall k, k <> "OPENAI_API_KEY" -> k <> "OPENAI_BASE_URL" ->
          spawnEnv req !! k = processEnv h !! k)
    /\ spawnCwd req = root.
Proof.
  intros Hdoc Hws Hrun.
  destruct (ensured_directory_exists M h doc root rest w req w' Hdoc Hws Hrun)
    as (key & Hkey & -> & _).
  exists key. split; [done|]. split; [by eapply credential_nonempty|].
  cbn [spawnRequest spawnEnv spawnCwd resolveInvocation apiKey baseUrl].
  split; [by rewrite lookup_insert_ne, lookup_insert_eq|].
  split; [by rewrite lookup_insert_eq|]. split; [|done].
  intros k Hk1 Hk2. by rewrite !lookup_insert_ne.
Qed.

Lemma child_environment_witness :
  let h := {| activeDocument := Some "/ws/app/calc.py";
              workspaceFolders := Some ("/ws", []);
              extensionPath := "/ext";
              isWindows := false;
              processEnv := {["DEEPSEEK_API_KEY" := "k"]};
              settings := ∅;
              numberSettings := ∅ |} in
  let M := {| exec := fun _ _ _ => (ExecOk "installed" "", ∅);
              mkdirError := fun _ _ => None |} in
  let w := {| files := ∅; effects := []; commands := [] |} in
  exists req,
    (run M (@generateTest (Posix.module "/") h) w).1 = Some req
    /\ spawnEnv req !! "OPENAI_API_KEY" = Some "k"
    /\ spawnEnv req !! "DEEPSEEK_API_KEY" = Some "k".
Proof.
  intros h M w.
  destruct (run M (@generateTest (Posix.module "/") h) w) as [[req|] w'] eqn:Hrun;
    [|vm_compute in Hrun; discriminate].
  destruct (@child_environment (Posix.module "/") M h "/ws/app/calc.py" "/ws" []
              w w' req eq_refl eq_refl Hrun)
    as (key & Hkey & _ & Hapi & _ & Hother & _).
  vm_compute in Hkey. injection Hkey as <-.
  exists req. split; [done|]. split; [done|].
  rewrite Hother by discriminate. by vm_compute.
Defined.

(** A template in which none of the tokens of its chain occurs is left as it
    is, whatever the values are; a token of the other chain, such as
    [{testFilePath}] in a path template, is not a token here. *)
Theorem template_without_tokens_is_unchanged (tpl testPath : string) (c : PathContext) :
  (occurs (token RelativeFilePath) tpl = false ->
   occurs (token FileName) tpl = false ->
   occurs (token SourceDir) tpl = false ->
   resolvePath tpl c = tpl)
  /\ (occurs (token TestFilePath) tpl = false ->
      occurs (token SourceDir) tpl = false ->
      resolveCommand tpl testPath c = tpl).
Proof.
  split.
  - intros Hr Hf Hd. unfold resolvePath, replace, JS.replace_global.
    by rewrite (scan_without_match _ _ _ tpl Hr), (scan_without_match _ _ _ tpl Hf),
      (scan_without_match _ _ _ tpl Hd).
  - intros Ht Hd. unfold resolveCommand, replace, JS.replace_global.
    by rewrite (scan_without_match _ _ _ tpl Ht), (scan_without_match _ _ _ tpl Hd).
Qed.

(** ** Further properties of the command and of the bootstrap *)

Section CommandRuns.
Context `{PathModule} (M : Machine).



Lemma launch_effects h root inv w :
  exists delta,
    run M (launch h root inv) w
    = (Some (spawnRequest h root inv),
       {| files := files w; effects := effects w ++ delta; commands := commands w |})
    /\ errors delta = [].
Proof.
  unfold launch. cbn [run]. unfold emit. cbn [files effects commands].
  rewrite <- !app_assoc. cbn [app]. eexists. split; reflexivity.
Qed.

End CommandRuns.


(** The bootstrap, when the executable is missing: the virtual environment
    is created first; the dependencies are installed only if that
    succeeded; the result is [true] exactly when both commands succeeded,
    and the executable is not looked for again. Both commands run in the
    qodo-cover directory. *)
Theorem bootstrap_installs_only_after_creation `{PathModule} (M : Machine)
    (windows : bool) (root : string) (w : World) :
  coverAgentPath windows root ∉ files w ->
  let dir := qodoCoverDir root in
  let created := exec M (venvCommand windows) dir (files w) in
  let installed := exec M (pipCommand windows) dir (created.2 ∪ files w) in
  let result := run M (setupPythonEnvironment windows root) w in
  match created.1 with
  | ExecFailed _ =>
      result.1 = false
      /\ commands result.2 = commands w ++ [(venvCommand windows, dir)]
      /\ files result.2 = created.2 ∪ files w
  | ExecOk _ _ =>
      result.1 = (if installed.1 is ExecOk _ _ then true else false)
      /\ commands result.2
         = commands w ++ [(venvCommand windows, dir); (pipCommand windows, dir)]
      /\ files result.2 = installed.2 ∪ (created.2 ∪ files w)
  end.
Proof.
  intros Habsent dir created installed result.
  subst result installed created dir.
  unfold setupPythonEnvironment. cbn [run].
  rewrite bool_decide_eq_false_2 by done. cbn [run].
  destruct (exec M (venvCommand windows) _ _) as [[out err|m] created] eqn:Hc;
    cbn [fst snd].
  - cbn [afterCreate run].
    destruct (exec M (pipCommand windows) _ _) as [[out' [|c err']|m] installed];
      cbn; rewrite <- ?app_assoc; done.
  - by cbn.
Qed.

Lemma bootstrap_installs_only_after_creation_witness :
  let M := {| exec := fun command _ _ =>
                if String.eqb command "python3 -3.11 -m venv venv"
                then (ExecFailed "python3: not found", ∅)
                else (ExecOk "" "", ∅);
              mkdirError := fun _ _ => None |} in
  let w := {| files := ∅; effects := []; commands := [] |} in
  let result := run M (@setupPythonEnvironment (Posix.module "/") false "/ext") w in
  result.1 = false
  /\ commands result.2
     = [("python3 -3.11 -m venv venv", "/ext/python_service/qodo-cover")].
Proof.
  intros M w result.
  pose proof (@bootstrap_installs_only_after_creation (Posix.module "/") M false
                "/ext" w) as Hb.
  cbn zeta in Hb.
  assert (@coverAgentPath (Posix.module "/") false "/ext" ∉ files w) as Habsent
    by (apply (bool_decide_unpack _); by vm_compute).
  specialize (Hb Habsent).
  change (exec M (venvCommand false) (@qodoCoverDir (Posix.module "/") "/ext") (files w)).1
    with (ExecFailed "python3: not found") in Hb.
  destruct Hb as (Hr & Hcmd & _). split; [exact Hr|exact Hcmd].
Defined.



(** ** Further properties of placeholder resolution *)

Section Passes.
Implicit Types (p q : Placeholder) (t : list Item) (s v u rest : string).

Lemma clean_no_brace v : clean v = true -> no_brace v = true.
Proof. unfold clean. by intros [? _]%andb_prop. Qed.

Lemma clean_no_dollar v : clean v = true -> no_dollar v = true.
Proof. unfold clean. by intros [_ ?]%andb_prop. Qed.

Lemma has_char_app a s rest :
  has_char a (s +:+ rest) = has_char a s || has_char a rest.
Proof.
  induction s as [|c s IH]; simpl; [done|]. rewrite IH. by rewrite orb_assoc.
Qed.

Lemma clean_app s rest : clean s = true -> clean rest = true -> clean (s +:+ rest) = true.
Proof.
  unfold clean, no_brace, no_dollar. rewrite !has_char_app.
  intros [Hs1 Hs2]%andb_prop [Hr1 Hr2]%andb_prop.
  destruct (has_char "{" s), (has_char "$" s), (has_char "{" rest),
    (has_char "$" rest); done.
Qed.

Lemma subst_comm p q v u t :
  p <> q -> subst p v (subst q u t) = subst q u (subst p v t).
Proof.
  intros Hne. unfold subst. rewrite !map_map. apply map_ext. intros [s|r]; [done|].
  destruct (decide (q = r)) as [->|Hq], (decide (p = r)) as [->|Hp]; try done.
  - by rewrite decide_True.
  - by rewrite decide_False.
Qed.

(** Text without an opening brace holds no token. *)
Lemma occurs_passes p s rest :
  has_char "{"%char s = false ->
  occurs (token p) (s +:+ rest) = occurs (token p) rest.
Proof.
  induction s as [|c s IH]; [done|]. cbn [has_char].
  intros [Hc Hs]%orb_false_elim. apply Ascii.eqb_neq in Hc.
  change (String c s +:+ rest) with (String c (s +:+ rest)).
  cbn [occurs]. rewrite IH by done. rewrite token_shape at 1.
  cbn [String.prefix]. destruct (ascii_dec "{" c) as [<-|_]; done.
Qed.

Lemma occurs_render p t :
  plain_text t = true -> without_hole p t = true -> occurs (token p) (render t) = false.
Proof.
  induction t as [|[s|q] t IH]; cbn [plain_text without_hole forallb render render_item].
  - by destruct p.
  - intros [Hs Ht]%andb_prop Hw. rewrite occurs_passes by by apply no_brace_has_char.
    by apply IH.
  - intros Ht [Hq Hw]%andb_prop. apply negb_true_iff, bool_decide_eq_false in Hq.
    rewrite (token_shape q).
    change (String "{" (token_name q +:+ "}") +:+ render t)
      with (String "{"%char ((token_name q +:+ "}") +:+ render t)).
    cbn [occurs].
    change (String "{" ((token_name q +:+ "}") +:+ render t))
      with (token q +:+ render t).
    rewrite other_token_no_match by done.
    rewrite occurs_passes by apply token_tail_no_brace. by apply IH.
Qed.

Lemma subst_without_hole p v t : without_hole p (subst p v t) = true.
Proof.
  unfold without_hole, subst.
  induction t as [|[s|q] t IH]; cbn [map forallb]; [done|done|].
  destruct (decide (p = q)) as [->|Hne]; [done|].
  by rewrite bool_decide_eq_false_2.
Qed.

Lemma subst_keeps_without_hole p q u t :
  without_hole p t = true -> without_hole p (subst q u t) = true.
Proof.
  unfold without_hole, subst.
  induction t as [|[s|r] t IH]; cbn [map forallb]; [done|done|].
  intros [Hr Ht]%andb_prop. destruct (decide (q = r)); [by apply IH|].
  by rewrite Hr, IH.
Qed.

End Passes.

(** On a template in which every opening brace begins a token, two
    replacements of different tokens by values without an opening brace or a
    dollar sign can be made in either order: the fixed order of the chain
    does not show in the result. *)
Theorem replacement_order_is_immaterial (tpl : string) (p q : Placeholder)
    (v u : string) :
  well_braced tpl = true -> p <> q -> clean v = true -> clean u = true ->
  replace p v (replace q u tpl) = replace q u (replace p v tpl).
Proof.
  intros Ht Hne Hv Hu. unfold well_braced in Ht.
  rewrite <- (render_parse tpl).
  rewrite (replace_render q), (replace_render p)
    by auto using subst_plain, clean_no_brace, clean_no_dollar.
  rewrite (replace_render p), (replace_render q)
    by auto using subst_plain, clean_no_brace, clean_no_dollar.
  by rewrite subst_comm.
Qed.

Lemma replacement_order_is_immaterial_witness :
  replace FileName "calc.py" (replace SourceDir "app" "{sourceDir}/test_{fileName}")
  = replace SourceDir "app" (replace FileName "calc.py" "{sourceDir}/test_{fileName}").
Proof.
  apply (replacement_order_is_immaterial "{sourceDir}/test_{fileName}"
           FileName SourceDir "calc.py" "app"); [reflexivity|discriminate|done..].
Defined.

(** Resolution leaves no token of its chain behind: when every opening brace
    of the template begins a token and the values contain neither an opening
    brace nor a dollar sign, none of [{relativeFilePath}], [{fileName}] and
    [{sourceDir}] occurs in a resolved path, and neither [{testFilePath}] nor
    [{sourceDir}] in a resolved command. *)
Theorem resolved_text_has_no_token (tpl testPath : string) (c : PathContext) :
  well_braced tpl = true ->
  clean (sourceRelPath c) = true -> clean (fileName c) = true ->
  clean (sourceDir c) = true -> clean testPath = true ->
  (forall p, p <> TestFilePath -> occurs (token p) (resolvePath tpl c) = false)
  /\ (forall p, p = TestFilePath \/ p = SourceDir ->
        occurs (token p) (resolveCommand tpl testPath c) = false).
Proof.
  intros Ht Hr Hf Hd Hp. unfold well_braced in Ht. split.
  - intros p Hne. rewrite <- (render_parse tpl).
    rewrite resolvePath_render by auto using clean_no_brace, clean_no_dollar.
    apply occurs_render; [auto 6 using subst_plain, clean_no_brace|].
    destruct p; try done.
    + do 2 apply subst_keeps_without_hole. apply subst_without_hole.
    + apply subst_keeps_without_hole. apply subst_without_hole.
    + apply subst_without_hole.
  - intros p Hcase. rewrite <- (render_parse tpl). unfold resolveCommand.
    rewrite (replace_render TestFilePath)
      by auto using clean_no_brace, clean_no_dollar.
    rewrite (replace_render SourceDir)
      by auto using subst_plain, clean_no_brace, clean_no_dollar.
    apply occurs_render; [auto 6 using subst_plain, clean_no_brace|].
    destruct Hcase as [-> | ->].
    + apply subst_keeps_without_hole. apply subst_without_hole.
    + apply subst_without_hole.
Qed.

Lemma resolved_text_has_no_token_witness :
  let c := @pathContext (Posix.module "/") "/ws" "/ws/app/calc.py" in
  occurs "{fileName}" (resolvePath "{sourceDir}/x{fileName}{fileName}" c) = false.
Proof.
  intros c.
  refine (proj1 (resolved_text_has_no_token "{sourceDir}/x{fileName}{fileName}"
                   "tests/test_calc.py" c _ _ _ _ _) FileName _);
    [reflexivity..|discriminate].
Defined.

(** With the three templates left at their defaults, and a file whose
    relative path and name contain neither an opening brace nor a dollar
    sign: the source path is the relative path of the file, the test path is
    [tests/test_] followed by the file name, and the test command runs
    pytest on that test path with coverage of the directory of the file. *)
Theorem default_templates `{PathModule} (h : Host) (key root doc : string) :
  JS.truthy (settings h !! "sourceFilePath") = false ->
  JS.truthy (settings h !! "testFilePath") = false ->
  JS.truthy (settings h !! "testCommand") = false ->
  let c := pathContext root doc in
  clean (sourceRelPath c) = true -> clean (fileName c) = true ->
  no_dollar (sourceDir c) = true ->
  let inv := resolveInvocation h key root doc in
  finalSourcePath inv = sourceRelPath c
  /\ finalTestPath inv = "tests/test_" +:+ fileName c
  /\ finalTestCommand inv
     = "pytest tests/test_" +:+ fileName c +:+ " --cov=" +:+ sourceDir c
       +:+ " --cov-branch --cov-report=xml --cov-report=html".
Proof.
  intros Hs Ht Hc c Hrel Hfn Hdir inv. subst inv. unfold resolveInvocation.
  cbn [finalSourcePath finalTestPath finalTestCommand]. fold c.
  assert (forall v d, JS.truthy v = false -> JS.or_default v d = d) as Hdef
    by (by intros [[|? ?]|] d).
  rewrite !Hdef by done.
  assert (resolvePath "tests/test_{fileName}" c = "tests/test_" +:+ fileName c) as Htest.
  { change "tests/test_{fileName}" with (render [Text "tests/test_"; Hole FileName]).
    rewrite resolvePath_render by auto using clean_no_brace, clean_no_dollar.
    cbn. by rewrite app_nil_r_string. }
  split; [|split].
  - change "{relativeFilePath}" with (render [Hole RelativeFilePath]).
    rewrite resolvePath_render by auto using clean_no_brace, clean_no_dollar.
    cbn. by rewrite app_nil_r_string.
  - exact Htest.
  - rewrite Htest. unfold resolveCommand.
    change "pytest {testFilePath} --cov={sourceDir} --cov-branch --cov-report=xml --cov-report=html"
      with (render [Text "pytest "; Hole TestFilePath; Text " --cov="; Hole SourceDir;
                    Text " --cov-branch --cov-report=xml --cov-report=html"]).
    assert (clean ("tests/test_" +:+ fileName c) = true) as Hclean
      by (by apply clean_app).
    rewrite (replace_render TestFilePath)
      by auto using clean_no_brace, clean_no_dollar.
    rewrite (replace_render SourceDir) by (try done; apply subst_plain;
      auto using clean_no_brace).
    cbn. rewrite ?app_nil_r_string, ?app_assoc_string. done.
Qed.

Lemma default_templates_witness :
  let h := {| activeDocument := Some "/ws/pkg/sub/mod.py";
              workspaceFolders := Some ("/ws", []);
              extensionPath := "/ext";
              isWindows := false;
              processEnv := ∅;
              settings := {["testCommand" := ""]};
              numberSettings := ∅ |} in
  finalTestCommand (@resolveInvocation (Posix.module "/") h "k" "/ws" "/ws/pkg/sub/mod.py")
  = "pytest tests/test_mod.py --cov=pkg/sub --cov-branch --cov-report=xml --cov-report=html".
Proof.
  intros h.
  apply (@default_templates (Posix.module "/") h "k" "/ws" "/ws/pkg/sub/mod.py");
    reflexivity.
Defined.

(** ** Further properties of the paths, on POSIX *)

Section PosixPaths.
Implicit Types (s t e seg name : string) (segs ds : list string).

Lemma tidy_nonempty seg : tidy seg -> Posix.nonempty seg = true.
Proof. intros (Hne & _). by destruct seg. Qed.

Lemma absolute_nonempty e : Posix.isAbsolute e = true -> Posix.nonempty e = true.
Proof. by destruct e. Qed.

Lemma filter_nonempty_all segs :
  Forall (fun seg => Posix.nonempty seg = true) segs ->
  filter (fun a => Posix.nonempty a = true) segs = segs.
Proof.
  induction 1 as [|seg segs Hseg _ IH]; [done|].
  by rewrite filter_cons_True, IH.
Qed.

Lemma unsplit_cons e seg segs :
  Posix.unsplit (e :: seg :: segs) = e +:+ String "/"%char (Posix.unsplit (seg :: segs)).
Proof. done. Qed.

Lemma unsplit_snoc segs seg :
  segs <> [] -> Posix.unsplit (segs ++ [seg]) = Posix.unsplit segs +:+ String "/"%char seg.
Proof.
  induction segs as [|x segs IH]; [done|]. intros _.
  destruct segs as [|y segs]; [done|].
  change ((x :: y :: segs) ++ [seg]) with (x :: ((y :: segs) ++ [seg])).
  change ((y :: segs) ++ [seg]) with (y :: (segs ++ [seg])) at 1.
  rewrite !unsplit_cons.
  change (y :: (segs ++ [seg])) with ((y :: segs) ++ [seg]).
  rewrite IH by done. by rewrite app_assoc_string.
Qed.

Lemma split_unsplit_cons e segs :
  Forall tidy segs -> Posix.split (Posix.unsplit (e :: segs)) = Posix.split e ++ segs.
Proof.
  intros Hall. destruct segs as [|seg segs]; [by rewrite app_nil_r|].
  rewrite unsplit_cons, split_app_slash, split_unsplit by auto using tidy_no_slash.
  done.
Qed.

Lemma trailing_app s t :
  t <> "" -> Posix.trailingSeparator (s +:+ t) = Posix.trailingSeparator t.
Proof.
  intros Ht. induction s as [|c s IH]; [done|].
  change (String c s +:+ t) with (String c (s +:+ t)).
  cbn [Posix.trailingSeparator]. destruct (s +:+ t) eqn:Hst; [|done].
  destruct s; [by cbn in Hst|discriminate].
Qed.

Lemma trailing_no_slash t :
  t <> "" -> has_char "/"%char t = false -> Posix.trailingSeparator t = false.
Proof.
  induction t as [|c t IH]; [done|]. intros _. cbn [has_char].
  intros [Hc Ht]%orb_false_elim. destruct t as [|c' t]; [done|].
  cbn [Posix.trailingSeparator]. by apply IH.
Qed.

Lemma trailing_unsplit e segs :
  Forall tidy segs -> segs <> [] ->
  Posix.trailingSeparator (Posix.unsplit (e :: segs)) = false.
Proof.
  intros Hall Hne. destruct (exists_last Hne) as (front & seg & ->).
  apply Forall_app in Hall as [_ Hseg]. inversion Hseg as [|? ? (Hn & _ & _ & Hs) _]; subst.
  change (e :: front ++ [seg]) with ((e :: front) ++ [seg]).
  rewrite unsplit_snoc by done.
  rewrite trailing_app by done. destruct seg as [|c seg]; [done|].
  change (Posix.trailingSeparator (String "/" (String c seg)))
    with (Posix.trailingSeparator (String c seg)).
  by apply trailing_no_slash.
Qed.

Lemma location_tidy s : Forall tidy (location s).
Proof.
  apply Forall_rev, normalize_keeps_tidy; [apply split_segments_no_slash|done].
Qed.

(** An absolute path without a trailing slash that does not lead to the root
    is normalised to its location, written out. *)
Lemma normalize_absolute s :
  Posix.isAbsolute s = true -> Posix.trailingSeparator s = false ->
  location s <> [] ->
  Posix.normalize s = String "/"%char (Posix.unsplit (location s)).
Proof.
  intros Habs Htr Hloc. unfold Posix.normalize. destruct s as [|c s]; [done|].
  rewrite Habs, Htr. cbn [negb]. unfold Posix.normalizeString.
  change (rev (Posix.normalize_segments false [] (Posix.split (String c s))))
    with (location (String c s)).
  destruct (Posix.unsplit (location (String c s))) eqn:Hu.
  - apply unsplit_empty in Hu; [done|apply location_tidy].
  - cbn. by rewrite app_nil_r_string.
Qed.

Lemma location_of_normal segs :
  Forall tidy segs -> location (String "/"%char (Posix.unsplit segs)) = segs.
Proof.
  intros Hall. destruct segs as [|seg segs]; [done|]. unfold location.
  change (Posix.split (String "/" (Posix.unsplit (seg :: segs))))
    with ("" :: Posix.split (Posix.unsplit (seg :: segs))).
  rewrite split_unsplit by auto using tidy_no_slash.
  rewrite normalize_cons. cbn [Posix.push_segment String.eqb orb].
  rewrite normalize_tidy by done. by rewrite app_nil_r, rev_involutive.
Qed.

(** Joining tidy segments to an absolute path appends them to its
    location. *)
Lemma join_absolute e segs :
  Posix.isAbsolute e = true -> Forall tidy segs -> segs <> [] ->
  Posix.join (e :: segs) = String "/"%char (Posix.unsplit (location e ++ segs)).
Proof.
  intros Habs Hall Hne. unfold Posix.join.
  rewrite filter_nonempty_all.
  2:{ constructor; [by apply absolute_nonempty|].
      eapply Forall_impl; [exact Hall|]. apply tidy_nonempty. }
  assert (location (Posix.unsplit (e :: segs)) = location e ++ segs) as Hloc.
  { unfold location. rewrite split_unsplit_cons, normalize_app by done.
    rewrite (normalize_tidy segs) by done. by rewrite rev_app_distr, rev_involutive. }
  rewrite normalize_absolute.
  - by rewrite Hloc.
  - destruct segs as [|seg segs]; [done|]. rewrite unsplit_cons.
    by destruct e.
  - by apply trailing_unsplit.
  - rewrite Hloc. by destruct (location e), segs.
Qed.

Lemma join_absolute_location e segs :
  Posix.isAbsolute e = true -> Forall tidy segs -> segs <> [] ->
  Posix.isAbsolute (Posix.join (e :: segs)) = true
  /\ location (Posix.join (e :: segs)) = location e ++ segs.
Proof.
  intros Habs Hall Hne. rewrite join_absolute by done. split; [done|].
  apply location_of_normal, Forall_app. split; [apply location_tidy|done].
Qed.

(** Joining in two steps is joining in one. *)
Lemma join_join_absolute e segs1 segs2 :
  Posix.isAbsolute e = true ->
  Forall tidy segs1 -> segs1 <> [] -> Forall tidy segs2 -> segs2 <> [] ->
  Posix.join (Posix.join (e :: segs1) :: segs2) = Posix.join (e :: segs1 ++ segs2).
Proof.
  intros Habs H1 Hn1 H2 Hn2.
  destruct (join_absolute_location e segs1 Habs H1 Hn1) as [Habs1 Hloc1].
  rewrite (join_absolute (Posix.join (e :: segs1))) by done.
  rewrite (join_absolute e (segs1 ++ segs2)).
  - by rewrite Hloc1, app_assoc.
  - done.
  - by apply Forall_app.
  - by destruct segs1.
Qed.

End PosixPaths.

Lemma tidy_literals (windows : bool) :
  Forall tidy ["python_service"; "qodo-cover"]
  /\ Forall tidy ["python_service"; "qodo-cover"; "venv"]
  /\ Forall tidy ["venv"]
  /\ Forall tidy [if windows then "Scripts" else "bin";
                  if windows then "cover-agent.exe" else "cover-agent"].
Proof.
  destruct windows; repeat split; repeat constructor; done.
Qed.

(** The executable that is spawned is the executable whose presence the
    bootstrap checked, although the two places build its path with
    different calls of [path.join]: for an absolute extension path both are
    the normalised extension path followed by
    [python_service/qodo-cover/venv] and [bin/cover-agent] (on Windows
    [Scripts/cover-agent.exe]). *)
Theorem spawned_path_is_checked_path (cwd : string) (windows : bool) (e : string) :
  Posix.isAbsolute e = true ->
  @spawnedAgentPath (Posix.module cwd) windows e
  = @coverAgentPath (Posix.module cwd) windows e
  /\ @coverAgentPath (Posix.module cwd) windows e
     = String "/"%char
         (Posix.unsplit
            (location e ++
             ["python_service"; "qodo-cover"; "venv";
              if windows then "Scripts" else "bin";
              if windows then "cover-agent.exe" else "cover-agent"])).
Proof.
  intros Habs. destruct (tidy_literals windows) as (H2 & H3 & H1 & Hbin).
  unfold spawnedAgentPath, coverAgentPath, qodoCoverDir.
  cbn [join Posix.module].
  assert (Posix.join [Posix.join [e; "python_service"; "qodo-cover"]; "venv"]
          = Posix.join [e; "python_service"; "qodo-cover"; "venv"]) as Hvenv
    by (by apply (join_join_absolute e ["python_service"; "qodo-cover"] ["venv"])).
  rewrite Hvenv. split; [done|].
  rewrite (join_join_absolute e ["python_service"; "qodo-cover"; "venv"]) by done.
  rewrite join_absolute; [done|done| |done].
  apply Forall_app. by split.
Qed.

Lemma spawned_path_is_checked_path_witness :
  @spawnedAgentPath (Posix.module "/") false "/home/u/.vscode/extensions/../extensions/qodo/"
  = "/home/u/.vscode/extensions/qodo/python_service/qodo-cover/venv/bin/cover-agent".
Proof.
  destruct (spawned_path_is_checked_path "/" false
              "/home/u/.vscode/extensions/../extensions/qodo/" eq_refl) as [-> ->].
  by vm_compute.
Defined.

Section PathContext.
Implicit Types (s t root name : string) (segs ds : list string).

Lemma toPosixPath_posix cwd s : @toPosixPath (Posix.module cwd) s = s.
Proof.
  induction s as [|c s IH]; [done|]. cbn [toPosixPath sep Posix.module].
  rewrite IH. by destruct (Ascii.eqb_spec c "/") as [->|].
Qed.

Lemma segments_of_normal segs :
  Forall tidy segs -> Posix.segments (String "/"%char (Posix.unsplit segs)) = segs.
Proof.
  intros Hall. unfold Posix.segments. destruct segs as [|seg segs]; [done|].
  change (Posix.split (String "/" (Posix.unsplit (seg :: segs))))
    with ("" :: Posix.split (Posix.unsplit (seg :: segs))).
  rewrite split_unsplit by auto using tidy_no_slash.
  rewrite filter_cons_False by done. apply filter_nonempty_all.
  eapply Forall_impl; [exact Hall|]. apply tidy_nonempty.
Qed.

Lemma resolve_absolute cwd s :
  Posix.isAbsolute s = true ->
  Posix.resolve cwd s = String "/"%char (Posix.unsplit (location s)).
Proof. intros Habs. unfold Posix.resolve. by rewrite Habs. Qed.

Lemma strip_common_app segs rest :
  Posix.strip_common segs (segs ++ rest) = ([], rest).
Proof.
  induction segs as [|seg segs IH]; [by destruct rest|].
  cbn. by rewrite String.eqb_refl.
Qed.

Lemma unsplit_inj_length segs rest :
  Forall tidy segs -> Forall tidy (segs ++ rest) -> rest <> [] ->
  String "/"%char (Posix.unsplit segs) <> String "/"%char (Posix.unsplit (segs ++ rest)).
Proof.
  intros H1 H2 Hne Heq.
  apply (f_equal location) in Heq. rewrite !location_of_normal in Heq by done.
  apply (f_equal length) in Heq. rewrite length_app in Heq.
  destruct rest; [done|]. cbn in Heq. lia.
Qed.

(** The path from a directory to a file below it is what was appended. *)
Lemma relative_below cwd root segs :
  Posix.isAbsolute root = true -> Forall tidy segs -> segs <> [] ->
  Posix.relative cwd root (Posix.unsplit (root :: segs)) = Posix.unsplit segs.
Proof.
  intros Habs Hall Hne. unfold Posix.relative.
  assert (Posix.isAbsolute (Posix.unsplit (root :: segs)) = true) as Habs'.
  { destruct segs as [|seg segs]; [done|]. rewrite unsplit_cons. by destruct root. }
  assert (location (Posix.unsplit (root :: segs)) = location root ++ segs) as Hloc.
  { unfold location. rewrite split_unsplit_cons, normalize_app by done.
    rewrite (normalize_tidy segs) by done. by rewrite rev_app_distr, rev_involutive. }
  destruct (String.eqb_spec root (Posix.unsplit (root :: segs))) as [Heq|_].
  { apply (f_equal location) in Heq. rewrite Hloc in Heq.
    apply (f_equal length) in Heq. rewrite length_app in Heq.
    destruct segs; [done|]. cbn in Heq. lia. }
  rewrite !resolve_absolute, Hloc by done.
  destruct (String.eqb_spec (String "/" (Posix.unsplit (location root)))
              (String "/" (Posix.unsplit (location root ++ segs)))) as [Heq|_].
  { exfalso. revert Heq. apply unsplit_inj_length; [apply location_tidy| |done].
    apply Forall_app. split; [apply location_tidy|done]. }
  rewrite !segments_of_normal
    by (try apply Forall_app; auto using location_tidy).
  by rewrite strip_common_app.
Qed.

Lemma chars_app s t : Posix.chars (s +:+ t) = Posix.chars s ++ Posix.chars t.
Proof.
  unfold Posix.chars. induction s as [|c s IH]; [done|]. simpl. by f_equal.
Qed.

Lemma text_chars s : Posix.text (Posix.chars s) = s.
Proof. apply String.string_of_list_ascii_of_string. Qed.

Lemma take_while_all f l rest c :
  Forall (fun x => f x = true) l -> f c = false ->
  Posix.take_while f (l ++ c :: rest) = l.
Proof.
  induction 1 as [|x l Hx _ IH]; intros Hc; cbn; [by rewrite Hc|].
  by rewrite Hx, IH.
Qed.

Lemma drop_while_all f l rest c :
  Forall (fun x => f x = true) l -> f c = false ->
  Posix.drop_while f (l ++ c :: rest) = c :: rest.
Proof.
  induction 1 as [|x l Hx _ IH]; intros Hc; cbn; [by rewrite Hc|].
  by rewrite Hx, IH.
Qed.

Lemma drop_while_whole f l :
  Forall (fun x => f x = true) l -> Posix.drop_while f l = [].
Proof. induction 1 as [|x l Hx _ IH]; cbn; [done|]. by rewrite Hx. Qed.

Lemma drop_while_none f c l : f c = false -> Posix.drop_while f (c :: l) = c :: l.
Proof. intros Hc. cbn. by rewrite Hc. Qed.

Lemma chars_not_slash name :
  has_char "/"%char name = false ->
  Forall (fun x => Posix.not_slash x = true) (Posix.chars name).
Proof.
  induction name as [|c name IH]; cbn; [constructor|].
  intros [Hc Hn]%orb_false_elim. constructor; [|by apply IH].
  unfold Posix.not_slash, Posix.is_slash. by rewrite Hc.
Qed.

(** The reversed characters of a tidy name: no slash, and not empty. *)
Lemma rev_chars_name name :
  tidy name ->
  exists c l, rev (Posix.chars name) = c :: l
              /\ Posix.is_slash c = false
              /\ Forall (fun x => Posix.not_slash x = true) (c :: l).
Proof.
  intros (Hne & _ & _ & Hs).
  assert (Forall (fun x => Posix.not_slash x = true) (rev (Posix.chars name))) as Hall
    by (by apply Forall_rev, chars_not_slash).
  destruct (rev (Posix.chars name)) as [|c l] eqn:Hrev.
  - apply (f_equal (@rev ascii)) in Hrev. rewrite rev_involutive in Hrev.
    destruct name; [done|discriminate].
  - exists c, l. repeat split; [|done]. inversion Hall as [|? ? Hc _]; subst.
    unfold Posix.not_slash in Hc. by destruct (Posix.is_slash c).
Qed.

Lemma basename_below s name :
  tidy name -> Posix.basename (s +:+ String "/"%char name) = name.
Proof.
  intros Hname. destruct (rev_chars_name name Hname) as (c & l & Hrev & Hc & Hall).
  unfold Posix.basename. rewrite chars_app, rev_app_distr.
  change (Posix.chars (String "/" name)) with ("/"%char :: Posix.chars name).
  cbn [rev]. rewrite Hrev. cbn [app]. rewrite drop_while_none by done.
  rewrite <- app_assoc. cbn [app].
  change (c :: l ++ "/"%char :: rev (Posix.chars s))
    with ((c :: l) ++ "/"%char :: rev (Posix.chars s)).
  rewrite take_while_all by done.
  by rewrite <- Hrev, rev_involutive, text_chars.
Qed.

Lemma dirname_name name : tidy name -> Posix.dirname name = ".".
Proof.
  intros Hname. pose proof Hname as (Hne & _ & _ & Hs).
  destruct name as [|c0 name]; [done|]. cbn [has_char] in Hs.
  apply orb_false_elim in Hs as [Hc0 Hs]. unfold Posix.dirname.
  assert (Forall (fun x => Posix.not_slash x = true) (rev (Posix.chars name))) as Hall
    by (by apply Forall_rev, chars_not_slash).
  destruct (rev (Posix.chars name)) as [|c l] eqn:Hrev.
  - cbn. unfold Posix.is_slash. by rewrite Hc0.
  - inversion Hall as [|? ? Hc Hl]; subst.
    assert (Posix.is_slash c = false) as Hc'
      by (unfold Posix.not_slash in Hc; by destruct (Posix.is_slash c)).
    rewrite drop_while_none by done. rewrite drop_while_whole by done.
    unfold Posix.is_slash. by rewrite Hc0.
Qed.

(** The directory of a file below a relative directory is that directory. *)
Lemma dirname_below ds name :
  Forall tidy ds -> ds <> [] -> tidy name ->
  Posix.dirname (Posix.unsplit ds +:+ String "/"%char name) = Posix.unsplit ds.
Proof.
  intros Hds Hne Hname.
  destruct (rev_chars_name name Hname) as (c & l & Hrev & Hc & Hall).
  assert (exists c0 d, Posix.unsplit ds = String c0 d /\ Posix.is_slash c0 = false)
    as (c0 & d & Hd & Hc0).
  { destruct ds as [|seg ds]; [done|]. inversion Hds as [|? ? (Hn & _ & _ & Hs) _]; subst.
    destruct seg as [|c0 seg]; [done|]. cbn [has_char] in Hs.
    apply orb_false_elim in Hs as [Hs _].
    destruct ds; cbn; eexists _, _; (split; [reflexivity|done]). }
  rewrite Hd. change (String c0 d +:+ String "/" name)
    with (String c0 (d +:+ String "/"%char name)).
  unfold Posix.dirname. rewrite chars_app, rev_app_distr.
  change (Posix.chars (String "/" name)) with ("/"%char :: Posix.chars name).
  cbn [rev]. rewrite Hrev. cbn [app]. rewrite drop_while_none by done.
  rewrite <- app_assoc. cbn [app].
  change (c :: l ++ "/"%char :: rev (Posix.chars d))
    with ((c :: l) ++ "/"%char :: rev (Posix.chars d)).
  rewrite drop_while_all by done.
  destruct (rev (Posix.chars d)) as [|x before] eqn:Hrd.
  - rewrite Hc0. apply (f_equal (@rev ascii)) in Hrd. rewrite rev_involutive in Hrd.
    destruct d; [done|discriminate].
  - by rewrite <- Hrd, rev_involutive, text_chars.
Qed.

End PathContext.

(** For a file below the workspace root, reached through directories [ds]
    and called [name]: the relative path is those directories and the name
    joined by slashes, the file name is [name], and the source directory is
    the directories joined by slashes, or [.] when the file lies directly in
    the root. The root may be written with [.], [..] or repeated slashes. *)
Theorem path_context_below_root (cwd root name : string) (ds : list string) :
  Posix.isAbsolute root = true -> Forall tidy ds -> tidy name ->
  let c := @pathContext (Posix.module cwd) root (Posix.unsplit (root :: ds ++ [name])) in
  sourceRelPath c = Posix.unsplit (ds ++ [name])
  /\ fileName c = name
  /\ sourceDir c = (if ds is [] then "." else Posix.unsplit ds).
Proof.
  intros Habs Hds Hname c. subst c. unfold pathContext.
  cbn [sourceRelPath fileName sourceDir relative basename dirname Posix.module].
  rewrite !toPosixPath_posix.
  assert (Forall tidy (ds ++ [name])) as Hall
    by (apply Forall_app; split; [done|by constructor]).
  rewrite relative_below by (try done; by destruct ds).
  split; [done|]. split.
  - change (root :: ds ++ [name]) with ((root :: ds) ++ [name]).
    rewrite unsplit_snoc by done. by apply basename_below.
  - destruct ds as [|d ds]; [by apply dirname_name|].
    rewrite unsplit_snoc by done. by apply dirname_below.
Qed.

Lemma path_context_below_root_witness :
  let c := @pathContext (Posix.module "/") "/home/u/../u/proj/" "/home/u/../u/proj//pkg/sub/mod.py" in
  sourceRelPath c = "pkg/sub/mod.py" /\ fileName c = "mod.py" /\ sourceDir c = "pkg/sub".
Proof.
  intros c.
  apply (path_context_below_root "/" "/home/u/../u/proj/" "mod.py" ["pkg"; "sub"]);
    repeat constructor; done.
Defined.

Section DefaultTestDirectory.
Implicit Types (s name : string) (t : list Item).

(** A pass for a token that the template does not hold changes nothing,
    whatever the value. *)
Lemma replace_absent p v t :
  plain_text t = true -> without_hole p t = true ->
  replace p v (render t) = render t.
Proof.
  intros Ht Hw. unfold replace, JS.replace_global.
  apply scan_without_match. by apply occurs_render.
Qed.

Lemma text_not_slash (l : list ascii) :
  Forall (fun x => Posix.not_slash x = true) l ->
  has_char "/"%char (Posix.text l) = false.
Proof.
  unfold Posix.text. induction 1 as [|x l Hx _ IH]; [done|].
  cbn [String.string_of_list_ascii has_char]. rewrite IH, orb_false_r.
  unfold Posix.not_slash, Posix.is_slash in Hx. by destruct (Ascii.eqb x "/").
Qed.

Lemma take_while_holds f (l : list ascii) :
  Forall (fun x => f x = true) (Posix.take_while f l).
Proof.
  induction l as [|x l IH]; cbn; [constructor|].
  destruct (f x) eqn:Hx; by constructor.
Qed.

Lemma basename_no_slash s : has_char "/"%char (Posix.basename s) = false.
Proof. apply text_not_slash, Forall_rev, take_while_holds. Qed.

Lemma test_file_name_tidy name :
  has_char "/"%char name = false -> tidy ("test_" +:+ name).
Proof. intros Hs. by repeat split. Qed.

End DefaultTestDirectory.

(** With the test path template left at its default, the directory that is
    ensured before the run is [tests] directly below the workspace root,
    wherever the file lies, and the test file is [test_] followed by the
    name of the file; the name must contain neither an opening brace nor a
    dollar sign. *)
Theorem default_test_directory (cwd : string) (h : Host) (key root doc : string) :
  JS.truthy (settings h !! "testFilePath") = false ->
  Posix.isAbsolute root = true ->
  clean (Posix.basename doc) = true ->
  let inv := @resolveInvocation (Posix.module cwd) h key root doc in
  finalTestPath inv = "tests/test_" +:+ Posix.basename doc
  /\ @testDirAbs (Posix.module cwd) root inv
     = String "/"%char (Posix.unsplit (location root ++ ["tests"]))
  /\ inside root (@testDirAbs (Posix.module cwd) root inv).
Proof.
  intros Ht Habs Hfn inv.
  assert (finalTestPath inv = "tests/test_" +:+ Posix.basename doc) as Hpath.
  { subst inv. unfold resolveInvocation. cbn [finalTestPath].
    replace (JS.or_default (settings h !! "testFilePath") "tests/test_{fileName}")
      with "tests/test_{fileName}" by (by destruct (settings h !! "testFilePath") as [[|? ?]|]).
    unfold resolvePath, pathContext.
    cbn [sourceRelPath fileName sourceDir basename Posix.module].
    change "tests/test_{fileName}" with (render [Text "tests/test_"; Hole FileName]).
    rewrite (replace_absent RelativeFilePath) by done.
    rewrite (replace_render FileName) by auto using clean_no_dollar.
    rewrite replace_absent.
    - cbn. by rewrite app_nil_r_string.
    - apply subst_plain; [by apply clean_no_brace|done].
    - done. }
  assert (Forall tidy ["tests"]) as Htests by (repeat constructor; done).
  assert (@testDirAbs (Posix.module cwd) root inv = Posix.join [root; "tests"]) as Hdir.
  { unfold testDirAbs. cbn [join dirname Posix.module]. rewrite Hpath.
    change ("tests/test_" +:+ Posix.basename doc)
      with (Posix.unsplit ["tests"] +:+ String "/"%char ("test_" +:+ Posix.basename doc)).
    rewrite dirname_below; [done|done|done|].
    apply test_file_name_tidy, basename_no_slash. }
  split; [done|]. rewrite Hdir.
  destruct (join_absolute_location root ["tests"] Habs Htests) as [_ Hloc]; [done|].
  split; [by apply join_absolute|].
  unfold inside. rewrite Hloc. by eexists.
Qed.

Lemma default_test_directory_witness :
  let h := {| activeDocument := Some "/elsewhere/deep/down/mod.py";
              workspaceFolders := Some ("/ws/", []);
              extensionPath := "/ext";
              isWindows := false;
              processEnv := ∅;
              settings := ∅;
              numberSettings := ∅ |} in
  let inv := @resolveInvocation (Posix.module "/") h "k" "/ws/" "/elsewhere/deep/down/mod.py" in
  finalTestPath inv = "tests/test_mod.py"
  /\ @testDirAbs (Posix.module "/") "/ws/" inv = "/ws/tests".
Proof.
  intros h inv.
  destruct (default_test_directory "/" h "k" "/ws/" "/elsewhere/deep/down/mod.py"
              eq_refl eq_refl eq_refl) as (Hp & Hd & _).
  split; [exact Hp|]. etrans; [exact Hd|]. by vm_compute.
Defined.

(** ** Further properties of the credential and of the reports *)

(** The credential is the setting or the value of one of the seven listed
    variables, and no other variable of the environment has any part in it:
    two environments that agree on the seven give the same credential. *)
Theorem credential_reads_only_listed_variables (configured : option string)
    (env env' : gmap string string) :
  (forall key, credential configured env = Some key ->
     configured = Some key
     \/ exists name, name ∈ possibleEnvKeys /\ env !! name = Some key)
  /\ ((forall name, name ∈ possibleEnvKeys -> env !! name = env' !! name) ->
      credential configured env = credential configured env').
Proof.
  split.
  - intros key Hkey.
    pose proof (credential_meets_spec configured env) as Hspec. rewrite Hkey in Hspec.
    inversion Hspec as [k Hc Hk|before name after v Hc Hsplit Hb Hname Hv|]; subst.
    + by left.
    + right. exists name. split; [|done]. rewrite Hsplit.
      apply elem_of_app. right. apply list_elem_of_here.
  - intros Hagree. unfold credential, readApiKey.
    enough (forall keys apiKey,
              (forall name, name ∈ keys -> env !! name = env' !! name) ->
              scanEnv env keys apiKey = scanEnv env' keys apiKey) as Hscan
      by (by rewrite (Hscan possibleEnvKeys configured Hagree)).
    induction keys as [|name keys IH]; intros apiKey Hk; [done|]. cbn [scanEnv].
    rewrite <- (Hk name) by apply list_elem_of_here.
    rewrite IH; [done|]. intros name' Hin. apply Hk. by apply list_elem_of_further.
Qed.

(** No report without its cause: success is reported only for a child that
    closed with code 0, a cancellation only when one was requested, and a
    failure only for a child that closed with another code or none, or for
    an error event. *)
Theorem reports_have_causes (es : list Event) :
  (Success ∈ outcomes (supervise es) -> Close (Some 0%Z) ∈ es)
  /\ (Cancelled ∈ outcomes (supervise es) -> CancellationRequested ∈ es)
  /\ (Failure ∈ outcomes (supervise es) ->
      (exists code, code <> Some 0%Z /\ Close code ∈ es)
      \/ (exists m, ProcessError m ∈ es)).
Proof.
  unfold supervise.
  enough (forall s o, o ∈ outcomes (foldl handle s es) ->
            o ∈ outcomes s
            \/ match o with
               | Success => Close (Some 0%Z) ∈ es
               | Cancelled => CancellationRequested ∈ es
               | Failure => (exists code, code <> Some 0%Z /\ Close code ∈ es)
                            \/ (exists m, ProcessError m ∈ es)
               end) as Hgen.
  { repeat split; intros Hin; destruct (Hgen spawned _ Hin) as [Hs|Hc];
      solve [done | by apply elem_of_nil in Hs]. }
  induction es as [|e es IH]; intros s o Hin; cbn [foldl] in Hin; [by left|].
  destruct (IH _ _ Hin) as [Hs|Hc].
  - destruct e as [|d|d|code|m]; cbn [handle] in Hs.
    + unfold outcomes in Hs. cbn in Hs. rewrite omap_app in Hs.
      apply elem_of_app in Hs as [Hs|Hs]; [by left|]. right.
      apply list_elem_of_singleton in Hs as ->. apply list_elem_of_here.
    + rewrite outcomes_say in Hs. cbn in Hs. rewrite app_nil_r in Hs. by left.
    + rewrite outcomes_say in Hs. cbn in Hs. rewrite app_nil_r in Hs. by left.
    + destruct (isCancellationRequested s); [by left|].
      unfold outcomes in Hs. case_bool_decide as Hcode; cbn in Hs;
        rewrite omap_app in Hs; apply elem_of_app in Hs as [Hs|Hs];
        try (by left); right; apply list_elem_of_singleton in Hs as ->.
      * subst code. apply list_elem_of_here.
      * left. exists code. split; [done|]. apply list_elem_of_here.
    + unfold outcomes in Hs. cbn in Hs. rewrite omap_app in Hs.
      apply elem_of_app in Hs as [Hs|Hs]; [by left|]. right.
      apply list_elem_of_singleton in Hs as ->. right. exists m. apply list_elem_of_here.
  - right. destruct o.
    + by apply list_elem_of_further.
    + destruct Hc as [(code & Hne & Hc)|(m & Hc)].
      * left. exists code. split; [done|]. by apply list_elem_of_further.
      * right. exists m. by apply list_elem_of_further.
    + by apply list_elem_of_further.
Qed.

(** ** Repeating the command *)

Section Repeat.
Context `{PathModule} (M : Machine).

Lemma run_setup_present windows root w :
  coverAgentPath windows root ∈ files w ->
  run M (setupPythonEnvironment windows root) w = (true, w).
Proof.
  intros Hin. unfold setupPythonEnvironment. cbn [run].
  by rewrite bool_decide_eq_true_2.
Qed.

End Repeat.

(** Once a run has reached [spawn] and the executable is there, repeating
    the command spawns the same request again and, before that, starts no
    command and creates no directory: the bootstrap and the creation of the
    test directory are both passed over. *)
Theorem repeated_command_only_spawns `{PathModule} (M : Machine) (h : Host)
    (doc root : string) (rest : list string) (w w' : World) (req : SpawnRequest) :
  activeDocument h = Some doc -> workspaceFolders h = Some (root, rest) ->
  run M (generateTest h) w = (Some req, w') ->
  coverAgentPath (isWindows h) (extensionPath h) ∈ files w' ->
  (run M (generateTest h) w').1 = Some req
  /\ files (run M (generateTest h) w').2 = files w'
  /\ commands (run M (generateTest h) w').2 = commands w'.
Proof.
  intros Hdoc Hws Hrun Hexe.
  destruct (ensured_directory_exists M h doc root rest w req w' Hdoc Hws Hrun)
    as (key & Hkey & -> & Hdir).
  unfold generateTest. rewrite Hdoc, Hws, Hkey, run_bind, run_setup_present by done.
  cbn [negb run]. rewrite bool_decide_eq_true_2 by done. cbn [negb].
  by destruct (launch_effects M h root (resolveInvocation h key root doc) w')
    as (d & -> & _).
Qed.

Lemma repeated_command_only_spawns_witness :
  let h := {| activeDocument := Some "/ws/app/calc.py";
              workspaceFolders := Some ("/ws", []);
              extensionPath := "/ext";
              isWindows := false;
              processEnv := {["DEEPSEEK_API_KEY" := "k"]};
              settings := ∅;
              numberSettings := ∅ |} in
  let M := {| exec := fun command _ _ =>
                (ExecOk "" "",
                 if String.eqb command "venv/bin/pip install -e ."
                 then {["/ext/python_service/qodo-cover/venv/bin/cover-agent"]}
                 else ∅);
              mkdirError := fun _ _ => None |} in
  let w := {| files := ∅; effects := []; commands := [] |} in
  let first := run M (@generateTest (Posix.module "/") h) w in
  let second := run M (@generateTest (Posix.module "/") h) first.2 in
  length (commands first.2) = 2
  /\ second.1 = first.1
  /\ commands second.2 = commands first.2.
Proof.
  intros h M w first second. split; [by vm_compute|]. subst second first.
  destruct (run M (@generateTest (Posix.module "/") h) w) as [[req|] w'] eqn:Hfirst;
    [|vm_compute in Hfirst; discriminate].
  assert (@coverAgentPath (Posix.module "/") (isWindows h) (extensionPath h) ∈ files w')
    as Hexe.
  { replace w' with (run M (@generateTest (Posix.module "/") h) w).2
      by (by rewrite Hfirst).
    apply (bool_decide_unpack _). by vm_compute. }
  destruct (@repeated_command_only_spawns (Posix.module "/") M h "/ws/app/calc.py"
              "/ws" [] w w' req eq_refl eq_refl Hfirst Hexe) as (H1 & _ & H3).
  split; [exact H1|exact H3].
Defined.

(** ** Triggers that overlap *)

Section Overlap.
Context `{PathModule} (M : Machine) (windows : bool) (root : string).

Lemma trigger_without_executable (l : Loop bool) :
  coverAgentPath windows root ∉ files (world l) ->
  let l' := loop_step M (setupPythonEnvironment windows root) l Trigger in
  files (world l') = files (world l)
  /\ in_flight l' = in_flight l ++ [(venvCommand windows, qodoCoverDir root)]
  /\ commands (world l')
     = commands (world l) ++ [(venvCommand windows, qodoCoverDir root)].
Proof.
  intros Habsent. unfold loop_step, setupPythonEnvironment. cbn [advance].
  rewrite bool_decide_eq_false_2 by done. cbn [advance world tasks].
  unfold in_flight. cbn [tasks]. rewrite omap_app. by cbn.
Qed.

Lemma triggers_without_executable (n : nat) (l : Loop bool) :
  coverAgentPath windows root ∉ files (world l) ->
  let l' := loop_run M (setupPythonEnvironment windows root) l (replicate n Trigger) in
  files (world l') = files (world l)
  /\ in_flight l'
     = in_flight l ++ replicate n (venvCommand windows, qodoCoverDir root)
  /\ commands (world l')
     = commands (world l) ++ replicate n (venvCommand windows, qodoCoverDir root).
Proof.
  revert l. induction n as [|n IH]; intros l Habsent.
  - cbn. by rewrite !app_nil_r.
  - cbn [replicate loop_run foldl].
    destruct (trigger_without_executable l Habsent) as (Hf & Hi & Hc).
    destruct (IH (loop_step M (setupPythonEnvironment windows root) l Trigger))
      as (Hf' & Hi' & Hc'); [by rewrite Hf|].
    unfold loop_run in *. cbn zeta in *.
    rewrite Hf', Hi', Hc', Hf, Hi, Hc, <- !app_assoc. done.
Qed.

End Overlap.

(** While the executable is missing, every trigger starts a creation of the
    virtual environment of its own, whatever is already in flight: after
    [n] triggers in a row, [n] creations run side by side in the qodo-cover
    directory. *)
Theorem every_overlapping_trigger_creates `{PathModule} (M : Machine)
    (windows : bool) (root : string) (present : gset string) (n : nat) :
  coverAgentPath windows root ∉ present ->
  let l := loop_run M (setupPythonEnvironment windows root) (idle present)
             (replicate n Trigger) in
  in_flight l = replicate n (venvCommand windows, qodoCoverDir root)
  /\ commands (world l) = replicate n (venvCommand windows, qodoCoverDir root)
  /\ files (world l) = present.
Proof.
  intros Habsent l.
  destruct (triggers_without_executable M windows root n (idle present) Habsent)
    as (Hf & Hi & Hc).
  by repeat split.
Qed.

Lemma every_overlapping_trigger_creates_witness :
  let M := {| exec := fun _ _ _ => (ExecOk "" "", ∅);
              mkdirError := fun _ _ => None |} in
  let l := loop_run M (@setupPythonEnvironment (Posix.module "/") false "/ext")
             (idle ∅) [Trigger; Trigger; Trigger] in
  length (in_flight l) = 3.
Proof.
  intros M l.
  destruct (@every_overlapping_trigger_creates (Posix.module "/") M false "/ext" ∅ 3)
    as (Hi & _).
  - apply (bool_decide_unpack _). by vm_compute.
  - subst l. cbn zeta in Hi. change (replicate 3 Trigger) with [Trigger; Trigger; Trigger] in Hi.
    by rewrite Hi.
Defined.

(** ** What the command leaves behind *)

Section Footprint.
Context `{PathModule} (M : Machine).


End Footprint.

